(** * react-hooks-form-builder: the reducer, the submit handler and the
      field accessors of [src/index.tsx], over a small model of the
      JavaScript store.

    The module keeps its form state in plain JavaScript objects and updates
    them with lodash's [set] on a shallow copy, so objects are modelled as
    records in a store addressed by location: two references to the same
    nested object see each other's writes, exactly as in the source.

    Scope of the store model.  Values are [undefined], [null], booleans,
    integer-valued numbers, strings of 8-bit characters and references to
    plain objects or arrays.  A property read looks at own properties (and
    at the [length] of arrays and strings); members inherited from the
    built-in prototypes are modelled only where [index.tsx] itself asks for
    them, namely in the [in] test on [actionsMap].  A statement whose truth
    depends on what a key reads is therefore made for keys that name no
    inherited member (module [Ordinary]).  Getters, setters, frozen
    objects, symbols and the number values NaN, -0 and the infinities are
    not modelled. *)

From Stdlib Require Import ZArith NArith Ascii String.
From stdpp Require Import gmap strings list fin_maps pretty.

Local Open Scope string_scope.
Local Open Scope list_scope.
Local Open Scope Z_scope.

(** ** JavaScript values and the store *)

Module JS.

(** Locations are positions in the store. *)
Abbreviation loc := nat (only parsing).

Inductive val :=
  | VUndefined
  | VNull
  | VBool (b : bool)
  | VNum (z : Z)
  | VStr (s : string)
  | VRef (l : loc).

#[global] Instance val_eq_dec : EqDecision val.
Proof. solve_decision. Defined.

#[global] Instance val_inhabited : Inhabited val := populate VUndefined.

(** An object is a plain object or an array; an array carries its [length]
    beside its properties. *)
Inductive kind :=
  | KObject
  | KArray (len : N).

#[global] Instance kind_eq_dec : EqDecision kind.
Proof. solve_decision. Defined.

Record object := Obj { okind : kind; oprops : gmap string val }.

#[global] Instance object_eq_dec : EqDecision object.
Proof. solve_decision. Defined.

(** The store: the objects allocated so far, the newest last. *)
Abbreviation heap := (list object) (only parsing).

(** What a call can end in.  [OutOfModel] marks the few corners of the
    language the store model does not evaluate (see [array_set_length]). *)
Inductive error :=
  | TypeError
  | RangeError
  | OutOfModel.

Inductive result (A : Type) :=
  | Ok (a : A)
  | Throw (e : error).
Arguments Ok {A} a.
Arguments Throw {A} e.

#[global] Instance result_ret : MRet result := λ A a, Ok a.

#[global] Instance result_bind : MBind result := λ A B f r,
  match r with
  | Ok a => f a
  | Throw e => Throw e
  end.

(** *** Truthiness and the test [x == null] *)

Definition truthy (v : val) : bool :=
  match v with
  | VUndefined | VNull => false
  | VBool b => b
  | VNum z => negb (z =? 0)
  | VStr s => negb (String.eqb s "")
  | VRef _ => true
  end.

Definition is_nullish (v : val) : bool :=
  match v with
  | VUndefined | VNull => true
  | _ => false
  end.

(** *** Decimal indices *)

Definition is_digit (c : ascii) : bool :=
  let n := nat_of_ascii c in (48 <=? n)%nat && (n <=? 57)%nat.

Definition digit_val (c : ascii) : N := N.of_nat (nat_of_ascii c - 48).

Fixpoint digits_val (acc : N) (cs : list ascii) : N :=
  match cs with
  | [] => acc
  | c :: cs' => digits_val (10 * acc + digit_val c)%N cs'
  end.

(** lodash's [reIsUint]: the whole string is [0], or a digit from 1 to 9
    followed by digits (a decimal numeral without sign or leading zero). *)
Definition reIsUint (s : string) : bool :=
  match list_ascii_of_string s with
  | [] => false
  | c :: cs =>
      if Ascii.eqb c "0" then match cs with [] => true | _ => false end
      else is_digit c && forallb is_digit cs
  end.

Definition uint_val (s : string) : N := digits_val 0 (list_ascii_of_string s).

(** An array index in the sense of the language: a canonical numeral below
    [2^32 - 1]. *)
Definition array_index (k : string) : option N :=
  if reIsUint k && (uint_val k <? 4294967295)%N then Some (uint_val k) else None.

(** *** Property reads *)

Definition str_get (s k : string) : val :=
  if String.eqb k "length" then VNum (Z.of_nat (String.length s))
  else match array_index k with
       | Some i =>
           match String.get (N.to_nat i) s with
           | Some c => VStr (String c EmptyString)
           | None => VUndefined
           end
       | None => VUndefined
       end.

Definition obj_get (o : object) (k : string) : val :=
  match okind o with
  | KArray len =>
      if String.eqb k "length" then VNum (Z.of_N len)
      else default VUndefined (oprops o !! k)
  | KObject => default VUndefined (oprops o !! k)
  end.

(** [v[k]] for a [v] that is neither [null] nor [undefined]. *)
Definition get_prop (h : heap) (v : val) (k : string) : val :=
  match v with
  | VRef l =>
      match h !! l with
      | Some o => obj_get o k
      | None => VUndefined
      end
  | VStr s => str_get s k
  | _ => VUndefined
  end.

(** [v.k] as the language evaluates it: a [TypeError] on [null] and
    [undefined]. *)
Definition member (h : heap) (v : val) (k : string) : result val :=
  if is_nullish v then Throw TypeError else Ok (get_prop h v k).

(** [hasOwnProperty.call(o, k)]. *)
Definition has_own (o : object) (k : string) : bool :=
  match okind o with
  | KArray _ => String.eqb k "length" || bool_decide (is_Some (oprops o !! k))
  | KObject => bool_decide (is_Some (oprops o !! k))
  end.

(** *** Property writes *)

Definition is_letter (c : ascii) : bool :=
  let n := nat_of_ascii c in
  ((65 <=? n)%nat && (n <=? 90)%nat) || ((97 <=? n)%nat && (n <=? 122)%nat).

(** Shortening an array deletes the elements at and above the new length. *)
Definition below (n : N) (k : string) : bool :=
  match array_index k with
  | Some i => (i <? n)%N
  | None => true
  end.

Definition truncate (n : N) (props : gmap string val) : gmap string val :=
  filter (λ kv, below n kv.1 = true) props.

(** [arr.length = v].  The new length is [ToNumber(v)], which must be an
    integer below [2^32], else the assignment throws a [RangeError].  The
    conversion is evaluated for numbers, [null], [undefined], booleans,
    canonical numerals and strings made of letters only (all of which
    convert to NaN or to an infinity); other strings and objects are left
    out of the model. *)
Definition array_set_length (o : object) (v : val) : result object :=
  let set_len (n : N) := Ok (Obj (KArray n) (truncate n (oprops o))) in
  match v with
  | VNum z =>
      if (0 <=? z) && (z <? 4294967296) then set_len (Z.to_N z)
      else Throw RangeError
  | VNull => set_len 0%N
  | VBool b => set_len (if b then 1 else 0)%N
  | VUndefined => Throw RangeError
  | VStr s =>
      if reIsUint s && (uint_val s <? 4294967296)%N then set_len (uint_val s)
      else if negb (String.eqb s "") && forallb is_letter (list_ascii_of_string s)
           then Throw RangeError
           else Throw OutOfModel
  | VRef _ => Throw OutOfModel
  end.

(** [o[k] = v] on an object of the store. *)
Definition obj_set (o : object) (k : string) (v : val) : result object :=
  match okind o with
  | KObject => Ok (Obj KObject (<[k:=v]> (oprops o)))
  | KArray len =>
      if String.eqb k "length" then array_set_length o v
      else match array_index k with
           | Some i => Ok (Obj (KArray (N.max len (i + 1))) (<[k:=v]> (oprops o)))
           | None => Ok (Obj (KArray len) (<[k:=v]> (oprops o)))
           end
  end.

(** [new] object at the next free location. *)
Definition alloc (h : heap) (o : object) : heap * loc := (h ++ [o], length h).

(** The own enumerable properties copied by a spread [{...v}]: those of an
    object (an array's [length] is not enumerable), the characters of a
    string under their indices, nothing for the other primitives. *)
Fixpoint chars_from (i : N) (cs : list ascii) : gmap string val :=
  match cs with
  | [] => ∅
  | c :: cs' => <[pretty i := VStr (String c EmptyString)]> (chars_from (i + 1) cs')
  end.

Definition spread (h : heap) (v : val) : gmap string val :=
  match v with
  | VRef l =>
      match h !! l with
      | Some o => oprops o
      | None => ∅
      end
  | VStr s => chars_from 0 (list_ascii_of_string s)
  | _ => ∅
  end.

(** [ToPropertyKey] for a computed key [[e]: ...]. *)
Definition to_property_key (v : val) : result string :=
  match v with
  | VStr s => Ok s
  | VUndefined => Ok "undefined"
  | VNull => Ok "null"
  | VBool b => Ok (if b then "true" else "false")
  | VNum z => Ok (pretty z)
  | VRef _ => Throw OutOfModel
  end.

(** *** Stores without dangling references *)

Definition val_ok (n : nat) (v : val) : bool :=
  match v with
  | VRef l => (l <? n)%nat
  | _ => true
  end.

Definition object_ok (n : nat) (o : object) : bool :=
  bool_decide (map_Forall (λ _ v, val_ok n v = true) (oprops o)).

Definition closed (h : heap) : bool := forallb (object_ok (length h)) h.

(** The same as a proposition, for the proofs. *)
Definition closedP (h : heap) : Prop :=
  ∀ l o k l', h !! l = Some o → oprops o !! k = Some (VRef l') → (l' < length h)%nat.

(** A store without cycles: references lead to objects of lower rank. *)
Definition acyclic (h : heap) : Prop :=
  ∃ rank : loc → nat,
    ∀ l o k l', h !! l = Some o → oprops o !! k = Some (VRef l') →
                (rank l' < rank l)%nat.

Definition is_array (o : object) : bool :=
  match okind o with
  | KArray _ => true
  | KObject => false
  end.

Definition is_plain (h : heap) (v : val) : bool :=
  match v with
  | VRef l =>
      match h !! l with
      | Some o => negb (is_array o)
      | None => false
      end
  | _ => false
  end.

End JS.

(** ** lodash: [get] and [set]

    [index.tsx] imports [set] and [get] from lodash; the definitions below
    follow lodash 4.17.21 ([baseSet], [baseGet], [castPath], [isKey],
    [stringToPath], [assignValue], [isIndex]), function by function. *)

Module Lodash.
Import JS.

Definition dot : ascii := "."%char.
Definition lbracket : ascii := "["%char.
Definition rbracket : ascii := "]"%char.
Definition backslash : ascii := "\"%char.
Definition squote : ascii := "'"%char.
Definition dquote : ascii := ascii_of_nat 34.
Definition minus : ascii := "-"%char.

Definition is_quote (c : ascii) : bool := Ascii.eqb c dquote || Ascii.eqb c squote.

(** The class [\w]: letters, digits and the underscore. *)
Definition is_word (c : ascii) : bool :=
  is_letter c || is_digit c || Ascii.eqb c "_"%char.

(** The class written [[^.[\]]] in [rePropName]. *)
Definition is_special (c : ascii) : bool :=
  Ascii.eqb c dot || Ascii.eqb c lbracket || Ascii.eqb c rbracket.

Definition is_bracket (c : ascii) : bool :=
  Ascii.eqb c lbracket || Ascii.eqb c rbracket.

(** The regular expression dot matches every character but a line end. *)
Definition is_line_end (c : ascii) : bool :=
  Ascii.eqb c (ascii_of_nat 10) || Ascii.eqb c (ascii_of_nat 13).

(** [reIsPlainProp]: the whole string is made of word characters. *)
Definition reIsPlainProp (s : string) : bool :=
  forallb is_word (list_ascii_of_string s).

(** The body of a quoted key, read after the opening quote [q]: characters
    other than [q] and the backslash, and backslash-escaped characters, up
    to the first [q] that is followed by a closing bracket.  Returns the
    body and what follows the bracket. *)
Fixpoint quoted (q : ascii) (cs : list ascii) (acc : list ascii)
  : option (list ascii * list ascii) :=
  match cs with
  | [] => None
  | c :: cs' =>
      if Ascii.eqb c q then
        match cs' with
        | d :: rest => if Ascii.eqb d rbracket then Some (rev acc, rest) else None
        | [] => None
        end
      else if Ascii.eqb c backslash then
        match cs' with
        | d :: cs'' =>
            if is_line_end d then None else quoted q cs'' (d :: c :: acc)
        | [] => None
        end
      else quoted q cs' (c :: acc)
  end.

(** Longest prefix of characters satisfying [p], and the rest. *)
Fixpoint span (p : ascii → bool) (cs : list ascii) : list ascii * list ascii :=
  match cs with
  | [] => ([], [])
  | c :: cs' =>
      if p c then let '(run, rest) := span p cs' in (c :: run, rest)
      else ([], cs)
  end.

Definition quoted_key (cs : list ascii) : option (list ascii * list ascii) :=
  match cs with
  | q :: body => if is_quote q then quoted q body [] else None
  | [] => None
  end.

(** [reIsDeepProp] at one position: a dot, or an opening bracket followed
    by bracket-free text or by a quoted key, and a closing bracket. *)
Definition deep_here (cs : list ascii) : bool :=
  match cs with
  | [] => false
  | c :: cs' =>
      if Ascii.eqb c dot then true
      else if Ascii.eqb c lbracket then
        match (span (λ x, negb (is_bracket x)) cs').2 with
        | d :: _ =>
            if Ascii.eqb d rbracket then true
            else bool_decide (is_Some (quoted_key cs'))
        | [] => bool_decide (is_Some (quoted_key cs'))
        end
      else false
  end.

Fixpoint deep_anywhere (cs : list ascii) : bool :=
  match cs with
  | [] => false
  | _ :: cs' => deep_here cs || deep_anywhere cs'
  end.

Definition reIsDeepProp (s : string) : bool :=
  deep_anywhere (list_ascii_of_string s).

(** *** [rePropName] and [stringToPath] *)

(** A bracketed number: an optional minus sign, digits, an optional
    fraction, a closing bracket.  Returns the numeral and what follows. *)
Definition number_key (cs : list ascii) : option (list ascii * list ascii) :=
  let '(sign, cs1) :=
    match cs with
    | c :: r => if Ascii.eqb c minus then ([c], r) else ([], cs)
    | [] => ([], cs)
    end in
  let '(ds, cs2) := span is_digit cs1 in
  match ds with
  | [] => None
  | _ :: _ =>
      let '(frac, cs3) :=
        match cs2 with
        | c :: r =>
            if Ascii.eqb c dot then
              match span is_digit r with
              | ([], _) => ([], cs2)
              | (fs, r') => (c :: fs, r')
              end
            else ([], cs2)
        | [] => ([], cs2)
        end in
      match cs3 with
      | c :: rest =>
          if Ascii.eqb c rbracket then Some (sign ++ ds ++ frac, rest) else None
      | [] => None
      end
  end.

(** [reEscapeChar]: a backslash is dropped, a doubled one leaves one. *)
Fixpoint unescape (cs : list ascii) : list ascii :=
  match cs with
  | [] => []
  | c :: cs' =>
      if Ascii.eqb c backslash then
        match cs' with
        | d :: cs'' => if Ascii.eqb d backslash then d :: unescape cs'' else unescape cs'
        | [] => []
        end
      else c :: unescape cs'
  end.

(** A separator: a dot, or an empty pair of brackets. *)
Definition separator (cs : list ascii) : option (list ascii) :=
  match cs with
  | c :: r =>
      if Ascii.eqb c dot then Some r
      else if Ascii.eqb c lbracket then
        match r with
        | d :: r' => if Ascii.eqb d rbracket then Some r' else None
        | [] => None
        end
      else None
  | [] => None
  end.

(** The look-ahead of [rePropName]: a separator followed by a separator or
    by the end of the string stands for an empty key. *)
Definition empty_key_here (cs : list ascii) : bool :=
  match separator cs with
  | Some [] => true
  | Some r => bool_decide (is_Some (separator r))
  | None => false
  end.

(** What [rePropName] matches at the head of [cs]: the key handed to the
    callback, and the number of characters consumed. *)
Definition match_here (cs : list ascii) : option (list ascii * nat) :=
  match cs with
  | [] => None
  | c :: cs' =>
      if negb (is_special c) then
        let run := (span (λ x, negb (is_special x)) cs).1 in
        Some (run, length run)
      else
        let bracketed :=
          if Ascii.eqb c lbracket then
            match number_key cs' with
            | Some (num, rest) => Some (num, (length cs - length rest)%nat)
            | None =>
                match quoted_key cs' with
                | Some (body, rest) => Some (unescape body, (length cs - length rest)%nat)
                | None => None
                end
            end
          else None in
        match bracketed with
        | Some m => Some m
        | None => if empty_key_here cs then Some ([], 0%nat) else None
        end
  end.

(** [string.replace(rePropName, ...)]: matches are searched from left to
    right, each search starting where the last match ended (one character
    further after an empty match).  [skip] counts the characters of the
    current match still to pass. *)
Fixpoint scan (skip : nat) (cs : list ascii) : list string :=
  match cs with
  | [] => []
  | _ :: cs' =>
      match skip with
      | S n => scan n cs'
      | O =>
          match match_here cs with
          | Some (key, consumed) =>
              string_of_list_ascii key :: scan (consumed - 1) cs'
          | None => scan 0 cs'
          end
      end
  end.

Definition stringToPath (s : string) : list string :=
  let cs := list_ascii_of_string s in
  match cs with
  | c :: _ => if Ascii.eqb c dot then "" :: scan 0 cs else scan 0 cs
  | [] => scan 0 cs
  end.

(** *** [isKey], [castPath], [toKey], [isIndex] *)

(** [key in Object(object)].  [isKey] asks it only for a key that is not
    made of word characters, which is never an inherited member;
    [assignValue] asks it only after it has found the key among the own
    properties. *)
Definition key_in (h : heap) (object : val) (key : string) : bool :=
  match object with
  | VRef l =>
      match h !! l with
      | Some o => has_own o key
      | None => false
      end
  | _ => false
  end.

Definition isKey (h : heap) (value : string) (object : val) : bool :=
  reIsPlainProp value || negb (reIsDeepProp value)
  || (negb (is_nullish object) && key_in h object value).

Definition castPath (h : heap) (value : string) (object : val) : list string :=
  if isKey h value object then [value] else stringToPath value.

Definition toKey (value : string) : string := value.

Definition MAX_SAFE_INTEGER : N := 9007199254740991.

Definition isIndex (value : string) : bool :=
  reIsUint value && (uint_val value <? MAX_SAFE_INTEGER)%N.

Definition isObject (v : val) : bool :=
  match v with
  | VRef _ => true
  | _ => false
  end.

(** lodash's [eq]: strict equality, with NaN equal to itself. *)
Definition lodash_eq (a b : val) : bool := bool_decide (a = b).

(** *** [assignValue] and [baseSet] *)

Definition baseAssignValue (h : heap) (object : val) (key : string) (value : val)
  : result heap :=
  match object with
  | VRef l =>
      match h !! l with
      | Some o => o' ← obj_set o key value; mret (<[l:=o']> h)
      | None => Throw OutOfModel
      end
  | _ => Throw OutOfModel
  end.

(** [hasOwnProperty.call(object, key)]. *)
Definition own_in (h : heap) (object : val) (key : string) : bool :=
  key_in h object key.

Definition assignValue (h : heap) (object : val) (key : string) (value : val)
  : result heap :=
  let objValue := get_prop h object key in
  if negb (own_in h object key && lodash_eq objValue value)
     || (bool_decide (value = VUndefined) && negb (key_in h object key))
  then baseAssignValue h object key value
  else mret h.

Definition unsafe_key (key : string) : bool :=
  String.eqb key "__proto__" || String.eqb key "constructor"
  || String.eqb key "prototype".

(** The loop of [baseSet], one round per remaining key.  [nested] is the
    object the round writes into. *)
Fixpoint baseSet_loop (h : heap) (nested : val) (path : list string) (value : val)
  : result heap :=
  match path with
  | [] => mret h
  | key :: rest =>
      if is_nullish nested then mret h
      else if unsafe_key (toKey key) then mret h
      else
        '(h1, newValue) ←
          match rest with
          | [] => mret (h, value)
          | next :: _ =>
              let objValue := get_prop h nested key in
              if isObject objValue then mret (h, objValue)
              else
                let '(h1, l) :=
                  alloc h (Obj (if isIndex next then KArray 0 else KObject) ∅) in
                mret (h1, VRef l)
          end;
        h2 ← assignValue h1 nested key newValue;
        baseSet_loop h2 (get_prop h2 nested key) rest value
  end.

Definition baseSet (h : heap) (object : val) (path : string) (value : val)
  : result (heap * val) :=
  if negb (isObject object) then mret (h, object)
  else
    h' ← baseSet_loop h object (castPath h path object) value;
    mret (h', object).

Definition set (h : heap) (object : val) (path : string) (value : val)
  : result (heap * val) :=
  if is_nullish object then mret (h, object) else baseSet h object path value.

(** *** [baseGet] and [get] *)

(** The loop of [baseGet]; [None] when it stops at [null] or [undefined]
    before the path is used up. *)
Fixpoint baseGet_loop (h : heap) (object : val) (path : list string)
  : option val :=
  match path with
  | [] => Some object
  | key :: rest =>
      if is_nullish object then None
      else baseGet_loop h (get_prop h object (toKey key)) rest
  end.

Definition baseGet_path (h : heap) (object : val) (path : list string) : val :=
  match path with
  | [] => VUndefined
  | _ :: _ => default VUndefined (baseGet_loop h object path)
  end.

Definition baseGet (h : heap) (object : val) (path : string) : val :=
  baseGet_path h object (castPath h path object).

Definition get (h : heap) (object : val) (path : string) : val :=
  if is_nullish object then VUndefined else baseGet h object path.

(** *** The footprint of [baseSet]

    Along a path [baseSet] follows the objects that are already there and
    changes one property slot of the store it was given: the last slot of
    the path, or the first slot on the way that holds no object (everything
    below it is new).  A [loc * string] pair names a slot. *)

Fixpoint changed (h : heap) (nested : val) (path : list string)
  : option (loc * string) :=
  match path with
  | [] => None
  | key :: rest =>
      match nested with
      | VRef l =>
          if unsafe_key key then None
          else
            match rest with
            | [] => Some (l, key)
            | _ :: _ =>
                let objValue := get_prop h nested key in
                if isObject objValue then changed h objValue rest
                else Some (l, key)
            end
      | _ => None
      end
  end.

(** No key of the path is one [baseSet] refuses. *)
Definition safe_path (path : list string) : bool :=
  forallb (λ key, negb (unsafe_key key)) path.

(** The slots through which the walk reaches that slot. *)
Fixpoint links (h : heap) (nested : val) (path : list string)
  : list (loc * string) :=
  match path with
  | [] => []
  | key :: rest =>
      match nested with
      | VRef l =>
          if unsafe_key key then []
          else
            match rest with
            | [] => []
            | _ :: _ =>
                let objValue := get_prop h nested key in
                if isObject objValue then (l, key) :: links h objValue rest
                else []
            end
      | _ => []
      end
  end.

(** The changed slot is not one the walk came through (it always holds in a
    store without cycles). *)
Definition no_revisit (h : heap) (nested : val) (path : list string) : bool :=
  match changed h nested path with
  | Some c => bool_decide (c ∉ links h nested path)
  | None => true
  end.

(** The changed slot is not the [length] of an array. *)
Definition writable (h : heap) (nested : val) (path : list string) : bool :=
  match changed h nested path with
  | Some (l, key) =>
      match h !! l with
      | Some o => negb (is_array o && String.eqb key "length")
      | None => false
      end
  | None => true
  end.

(** The slots [baseGet] reads along a path. *)
Fixpoint reads (h : heap) (object : val) (path : list string)
  : list (loc * string) :=
  match path with
  | [] => []
  | key :: rest =>
      match object with
      | VRef l => (l, key) :: reads h (get_prop h object key) rest
      | _ => []
      end
  end.

(** A path is settled at [value] when every key before the last leads to an
    object and the last slot is an own property holding [value]; the walk
    ends at a key [baseSet] refuses. *)
Fixpoint settled (h : heap) (nested : val) (path : list string) (value : val)
  : bool :=
  match path with
  | [] => true
  | key :: rest =>
      unsafe_key key
      || (isObject nested &&
          match rest with
          | [] => own_in h nested key && bool_decide (get_prop h nested key = value)
          | _ :: _ =>
              isObject (get_prop h nested key)
              && settled h (get_prop h nested key) rest value
          end)
  end.

(** What a [baseSet] leaves of the store it was given: every object but the
    one holding the changed slot is as it was, and that one differs in that
    slot (and, for an array, possibly in its length). *)
Definition frame (h h' : heap) (c : option (loc * string)) : Prop :=
  ∀ l0 o0, h !! l0 = Some o0 →
    match c with
    | Some (lc, kc) =>
        if decide (l0 = lc)
        then ∃ w o0', h' !! l0 = Some o0'
                      ∧ oprops o0' = <[kc:=w]> (oprops o0)
                      ∧ is_array o0' = is_array o0
        else h' !! l0 = Some o0
    | None => h' !! l0 = Some o0
    end.

(** A key found by [rePropName] is at least two characters shorter than
    the text it was found in, or free of dots and brackets, or empty. *)
Definition short_key (key : list ascii) (m : nat) : Prop :=
  (length key + 2 ≤ m)%nat
  ∨ (forallb (λ x, negb (is_special x)) key = true ∧ (length key ≤ m)%nat)
  ∨ key = [].

End Lodash.

(** ** [src/index.tsx] *)

Module FormBuilder.
Import JS Lodash.

(** *** State, actions, [initialState] *)

(** [enum FormBuilderActions]. *)
Definition ON_STATE_CHANGE : string := "ON_STATE_CHANGE".
Definition ON_ERRORS_CHANGE : string := "ON_ERRORS_CHANGE".
Definition ON_FIELD_VALUE_CHANGE : string := "ON_FIELD_VALUE_CHANGE".

(** An action [{type, payload}].  The payload is an object literal at every
    dispatch site and the reducer only copies or reads its properties, so
    it is kept as the map of those properties. *)
Record action := Action { type : string; payload : gmap string val }.

(** A state object [{fieldsValues, errors, loadingInitialData}]. *)
Definition state_object (fieldsValues errors loadingInitialData : val) : object :=
  Obj KObject (<["fieldsValues" := fieldsValues]>
              (<["errors" := errors]>
              (<["loadingInitialData" := loadingInitialData]> ∅))).

(** The objects the module creates when it is loaded: [initialState] with
    its two empty objects, then the state of [defaultContext] with its own
    two.  Every store the reducer runs in extends this one. *)
Definition module_heap : heap :=
  [ Obj KObject ∅; Obj KObject ∅;
    state_object (VRef 0%nat) (VRef 1%nat) (VBool false);
    Obj KObject ∅; Obj KObject ∅;
    state_object (VRef 4%nat) (VRef 3%nat) (VBool false) ].

Definition initialState : val := VRef 2%nat.

(** *** [actionsMap] *)

Definition name_value (name : string) (value : val) : gmap string val :=
  <["name" := VStr name]> (<["value" := value]> ∅).

Definition field (data : gmap string val) (k : string) : val :=
  default VUndefined (data !! k).

(** [(state, nextValue) => ({ ...state, ...nextValue })] *)
Definition on_state_change (h : heap) (state : val) (nextValue : gmap string val)
  : result (heap * val) :=
  let '(h', l) := alloc h (Obj KObject (nextValue ∪ spread h state)) in
  mret (h', VRef l).

(** [(state, data) =>
      ({ ...state, errors: { ...state.errors, [data.name]: data.value } })] *)
Definition on_errors_change (h : heap) (state : val) (data : gmap string val)
  : result (heap * val) :=
  let outer := spread h state in
  errors ← member h state "errors";
  let inner := spread h errors in
  key ← to_property_key (field data "name");
  let '(h1, le) := alloc h (Obj KObject (<[key := field data "value"]> inner)) in
  let '(h2, ls) := alloc h1 (Obj KObject (<["errors" := VRef le]> outer)) in
  mret (h2, VRef ls).

(** [(state, data) =>
      ({ ...state,
         fieldsValues: { ...state.fieldsValues,
                         ...set({ ...state.fieldsValues }, data.name, data.value) } })]

    The three spreads are taken in the order the literal is evaluated: the
    state and the first copy of [fieldsValues] before [set] runs, the
    result of [set] after it.  A name that is not a string is a single key
    for lodash, the one [to_property_key] gives. *)
Definition on_field_value_change (h : heap) (state : val) (data : gmap string val)
  : result (heap * val) :=
  let outer := spread h state in
  fieldsValues ← member h state "fieldsValues";
  let first := spread h fieldsValues in
  fieldsValues' ← member h state "fieldsValues";
  let '(h1, copy) := alloc h (Obj KObject (spread h fieldsValues')) in
  name ← to_property_key (field data "name");
  '(h2, written) ← set h1 (VRef copy) name (field data "value");
  let '(h3, lf) := alloc h2 (Obj KObject (spread h2 written ∪ first)) in
  let '(h4, ls) := alloc h3 (Obj KObject (<["fieldsValues" := VRef lf]> outer)) in
  mret (h4, VRef ls).

Definition handler := heap → val → gmap string val → result (heap * val).

(** The own properties of [actionsMap], in the order of the literal. *)
Definition actionsMap : list (string * handler) :=
  [ (ON_STATE_CHANGE, on_state_change);
    (ON_ERRORS_CHANGE, on_errors_change);
    (ON_FIELD_VALUE_CHANGE, on_field_value_change) ].

Fixpoint assoc {A} (k : string) (l : list (string * A)) : option A :=
  match l with
  | [] => None
  | (k', a) :: l' => if String.eqb k k' then Some a else assoc k l'
  end.

(** [actionsMap] is an object literal, so its prototype is
    [Object.prototype]: the names below are found by [in] and by a property
    read on it although they are not own properties. *)
Definition object_prototype_members : list string :=
  [ "constructor"; "__defineGetter__"; "__defineSetter__"; "hasOwnProperty";
    "__lookupGetter__"; "__lookupSetter__"; "isPrototypeOf";
    "propertyIsEnumerable"; "toString"; "valueOf"; "__proto__";
    "toLocaleString" ].

(** [key in actionsMap]. *)
Definition in_actionsMap (key : string) : bool :=
  bool_decide (is_Some (assoc key actionsMap))
  || bool_decide (key ∈ object_prototype_members).

(** What [console.log] received. *)
Record diagnostic := Diagnostic { message : string; table : list string }.

(** [actionsMap[key](state, payload)] for an inherited [key], the receiver
    being [actionsMap].  [__proto__] is [Object.prototype], which is not a
    function; the two [__define] methods reject a payload that is not
    callable; [toString] and [toLocaleString] describe the receiver;
    [isPrototypeOf] finds that [actionsMap] is no prototype of the state;
    [constructor] is [Object], which returns an object argument as it is.
    The remaining members convert the state to a property key or return
    the table itself, and are left out of the model. *)
Definition call_inherited (key : string) (state : val) : result val :=
  if String.eqb key "__proto__" then Throw TypeError
  else if String.eqb key "__defineGetter__" || String.eqb key "__defineSetter__"
  then Throw TypeError
  else if String.eqb key "toString" || String.eqb key "toLocaleString"
  then mret (VStr "[object Object]")
  else if String.eqb key "isPrototypeOf" then mret (VBool false)
  else if String.eqb key "constructor" && isObject state then mret state
  else Throw OutOfModel.

(** *** [reducer] *)

Definition reducer (h : heap) (state : val) (a : action)
  : result (heap * val * list diagnostic) :=
  let state := match state with VUndefined => initialState | _ => state end in
  if negb (in_actionsMap (type a)) then
    mret (h, state,
          [ Diagnostic ("ACTION [" +:+ type a +:+ "] NOT FOUND IN actionsMap")
                       (map fst actionsMap) ])
  else
    match assoc (type a) actionsMap with
    | Some f => '(h', state') ← f h state (payload a); mret (h', state', [])
    | None => r ← call_inherited (type a) state; mret (h, r, [])
    end.

(** What the hosting runtime does with the actions dispatched during one
    event: [useReducer] applies [reducer] to them in order. *)
Fixpoint run (h : heap) (state : val) (actions : list action)
  : result (heap * val * list diagnostic) :=
  match actions with
  | [] => mret (h, state, [])
  | a :: rest =>
      '(h1, state1, log1) ← reducer h state a;
      '(h2, state2, log2) ← run h1 state1 rest;
      mret (h2, state2, log1 ++ log2)
  end.

(** *** The context *)

(** [FormBuilderContextType]: the state and the two functions.  A call of
    [dispatch] or [onFieldChange] is modelled by the actions it hands to the
    reducer. *)
Record FormBuilderContextType := Context {
  state : val;
  dispatch : action → list action;
  onFieldChange : string → val → list action
}.


(** [providerValue] in [FormBuilder]: the [dispatch] of [useReducer], and
    [onFieldChange], which dispatches [ON_FIELD_VALUE_CHANGE]. *)
Definition providerValue (state : val) : FormBuilderContextType :=
  let dispatch := λ a : action, [a] in
  Context state dispatch
    (λ fieldName value,
       dispatch (Action ON_FIELD_VALUE_CHANGE (name_value fieldName value))).

(** *** [loadInitialData]

    The function is asynchronous: it dispatches, waits for the loader, and
    registers a timer whose callback dispatches again.  It is kept as the
    script of what it asks of the host: the continuation after [await]
    receives the loaded value. *)

Inductive script :=
  | Done
  | Dispatch (a : action) (next : script)
  | Await (next : val → script)
  | SetTimeout (callback : script) (ms : N) (next : script).

(** The argument says whether [props.initialFieldValuesLoader] is there. *)
Definition loadInitialData (initialFieldValuesLoader : bool) : script :=
  if initialFieldValuesLoader then
    Dispatch (Action ON_STATE_CHANGE (<["loadingInitialData" := VBool true]> ∅))
      (Await (λ fieldsValues,
         SetTimeout
           (Dispatch (Action ON_STATE_CHANGE
                        (<["fieldsValues" := fieldsValues]>
                         (<["loadingInitialData" := VBool false]> ∅)))
              Done)
           (3 * 1000)
           Done))
  else Done.

(** The host, on a clock in milliseconds.  A script started at [now]
    dispatches at once; after [await] it goes on when the loader's promise
    has resolved, at [resolved_at] or at [now] if that is later, with the
    value [loaded]; a timer's callback runs [ms] milliseconds after the
    timer was set, and [late] more, for the host may fire timers late but
    never early.  The result is the list of dispatches with their times, in
    the order they happen (a timer's callback comes after what the script
    still does at the time the timer is set). *)
Fixpoint host (resolved_at : N) (loaded : val) (late : N) (now : N) (p : script)
  : list (N * action) :=
  match p with
  | Done => []
  | Dispatch a next => (now, a) :: host resolved_at loaded late now next
  | Await next =>
      host resolved_at loaded late (N.max now resolved_at) (next loaded)
  | SetTimeout callback ms next =>
      host resolved_at loaded late now next
      ++ host resolved_at loaded late (now + ms + late) callback
  end.

(** The dispatches that have happened by time [t], given to the reducer. *)
Definition state_at (h : heap) (state : val) (timeline : list (N * action)) (t : N)
  : result (heap * val * list diagnostic) :=
  run h state (map snd (filter (λ e, (e.1 <= t)%N) timeline)).

(** *** Submission *)

Inductive effect :=
  | Persist
  | PreventDefault
  | OnSubmit (values : val).

(** [for (let [key, value] of form) set(values, key, value)] *)
Fixpoint set_entries (h : heap) (values : val) (form : list (string * val))
  : result heap :=
  match form with
  | [] => mret h
  | (key, value) :: rest =>
      '(h', _) ← set h values key value;
      set_entries h' values rest
  end.

(** The [onSubmit] handler of the form element; [form] is the list of
    entries of [new FormData(formElement)]. *)
Definition onSubmit_handler (h : heap) (form : list (string * val))
  : result (heap * list effect) :=
  let '(h0, values) := alloc h (Obj KObject ∅) in
  h' ← set_entries h0 (VRef values) form;
  mret (h', [Persist; PreventDefault; OnSubmit (VRef values)]).

(** *** The field accessors *)

Record FormBuildreChildrenParams := Params {
  fieldError : val;
  value : val;
  params_dispatch : action → list action;
  params_onFieldChange : string → val → list action;
  params_state : val;
  onChange : val → list action
}.

(** [FormBuilderField]: the parameters handed to [children]. *)
Definition FormBuilderField (h : heap) (ctx : FormBuilderContextType)
    (fieldName : string) : result FormBuildreChildrenParams :=
  errors ← member h (state ctx) "errors";
  fieldError ← member h errors fieldName;
  fieldsValues ← member h (state ctx) "fieldsValues";
  mret {| fieldError := fieldError;
          value := get h fieldsValues fieldName;
          params_dispatch := dispatch ctx;
          params_onFieldChange := onFieldChange ctx;
          params_state := state ctx;
          onChange := λ value, onFieldChange ctx fieldName value |}.

(** [useFormBuilderField]; the validator is a function from values to
    values, absent when the third argument is left out. *)
Definition useFormBuilderField (h : heap) (ctx : FormBuilderContextType)
    (fieldName : string) (defaultValue : val) (validator : option (val → val))
  : result FormBuildreChildrenParams :=
  errors ← member h (state ctx) "errors";
  fieldError ← member h errors fieldName;
  fieldsValues ← member h (state ctx) "fieldsValues";
  let resolved := get h fieldsValues fieldName in
  mret {| fieldError := fieldError;
          value := if truthy resolved then resolved else defaultValue;
          params_dispatch := dispatch ctx;
          params_onFieldChange := onFieldChange ctx;
          params_state := state ctx;
          onChange := λ value,
            match validator with
            | Some validate =>
                let error := validate value in
                if truthy error
                then dispatch ctx (Action ON_ERRORS_CHANGE (name_value fieldName error))
                else dispatch ctx (Action ON_ERRORS_CHANGE
                                     (name_value fieldName (VBool false)))
            | None => []
            end ++ onFieldChange ctx fieldName value |}.

End FormBuilder.

(** ** Vocabulary of the statements *)

Module Footprint.
Import JS Lodash FormBuilder.

Definition field_change (name : string) (value : val) : action :=
  Action ON_FIELD_VALUE_CHANGE (name_value name value).

Definition errors_change (name : string) (value : val) : action :=
  Action ON_ERRORS_CHANGE (name_value name value).

(** A form state: an object of a store without dangling references whose
    [fieldsValues] and [errors] are plain objects. *)
Definition wf_state (h : heap) (s : val) : bool :=
  closed h && val_ok (length h) s && isObject s
  && is_plain h (get_prop h s "fieldsValues")
  && is_plain h (get_prop h s "errors").

(** The store once the reducer has taken [{ ...state.fieldsValues }], and
    that copy: [set] works on it, so the slots of an update are named from
    it.  Below its first level the copy shares every object with
    [fieldsValues]. *)
Definition with_copy (h : heap) (fieldsValues : val) : heap :=
  h ++ [Obj KObject (spread h fieldsValues)].

Definition the_copy (h : heap) : val := VRef (length h).

(** The slot an update of [name] changes. *)
Definition update_slot (h : heap) (fieldsValues : val) (name : string)
  : option (loc * string) :=
  changed (with_copy h fieldsValues) (the_copy h)
          (castPath h name fieldsValues).

(** The update neither comes back to a slot it walked through nor writes
    the [length] of an array. *)
Definition update_ok (h : heap) (fieldsValues : val) (name : string) : bool :=
  no_revisit (with_copy h fieldsValues) (the_copy h) (castPath h name fieldsValues)
  && writable (with_copy h fieldsValues) (the_copy h) (castPath h name fieldsValues).





(** The two dispatches of [loadInitialData]. *)
Definition loading_on : action :=
  Action ON_STATE_CHANGE (<["loadingInitialData" := VBool true]> ∅).

Definition loading_off (fieldsValues : val) : action :=
  Action ON_STATE_CHANGE
    (<["fieldsValues" := fieldsValues]> (<["loadingInitialData" := VBool false]> ∅)).

End Footprint.

(** ** Stores used in the examples *)

Module Examples.
Import JS Lodash FormBuilder Footprint.

(** [{ fieldsValues: { a: 5 }, errors: {}, loadingInitialData: false }] *)
Definition store_a5 : heap :=
  module_heap
  ++ [ Obj KObject (<["a" := VNum 5]> ∅);
       Obj KObject ∅;
       state_object (VRef 6%nat) (VRef 7%nat) (VBool false) ].

Definition state_a5 : val := VRef 8%nat.

(** [{ fieldsValues: { a: { b: 1 } }, errors: {}, loadingInitialData: false }] *)
Definition store_ab : heap :=
  module_heap
  ++ [ Obj KObject (<["b" := VNum 1]> ∅);
       Obj KObject (<["a" := VRef 6%nat]> ∅);
       Obj KObject ∅;
       state_object (VRef 7%nat) (VRef 8%nat) (VBool false) ].

Definition state_ab : val := VRef 9%nat.



(** The validator of the scenario, [v => v < 0 && "must be positive"], on
    numbers (the examples give it nothing else). *)
Definition must_be_positive (v : val) : val :=
  match v with
  | VNum z => if (z <? 0)%Z then VStr "must be positive" else VBool false
  | _ => VBool false
  end.

End Examples.

(** ** Flat names, sequences of edits, and what a nested name builds *)

Module Edits.
Import JS Lodash FormBuilder Footprint.

(** A name that [isKey] takes as a single key whatever the object holds,
    and that [baseSet] does not refuse. *)
Definition flat_name (name : string) : bool :=
  (reIsPlainProp name || negb (reIsDeepProp name)) && negb (unsafe_key name).

(** The two dispatches of the field accessors, and the action of each. *)
Inductive edit :=
  | SetError (name : string) (value : val)
  | SetField (name : string) (value : val).

Definition edit_action (e : edit) : action :=
  match e with
  | SetError name value => errors_change name value
  | SetField name value => field_change name value
  end.

Definition flat_edit (e : edit) : bool :=
  match e with
  | SetError _ _ => true
  | SetField name _ => flat_name name
  end.

(** The same edit on a pair of finite maps, the own properties of
    [fieldsValues] and of [errors]. *)
Definition apply_edit (m : gmap string val * gmap string val) (e : edit)
  : gmap string val * gmap string val :=
  match e with
  | SetError name value => (m.1, <[name := value]> m.2)
  | SetField name value => (<[name := value]> m.1, m.2)
  end.

(** What the hook's [onChange] stores as the error of a value: the
    validator's result when it is truthy, [false] otherwise. *)
Definition verdict (validate : val → val) (value : val) : val :=
  if truthy (validate value) then validate value else VBool false.

(** The entries of a form written into a finite map, in order. *)
Definition write_entry (m : gmap string val) (e : string * val) : gmap string val :=
  <[e.1 := e.2]> m.

(** The state the reducer works on: [initialState] stands in for
    [undefined] (the default of its first parameter). *)
Definition or_initial (state : val) : val :=
  match state with
  | VUndefined => initialState
  | _ => state
  end.

(** A key that names no member of [Object.prototype].  The store model
    reads own properties only; where a statement depends on a key being
    absent from a plain object, it is stated for such keys. *)
Definition own_key (key : string) : bool :=
  bool_decide (key ∉ object_prototype_members).

(** The object [baseSet] creates before it writes [key] into it. *)
Definition empty_for (key : string) : object :=
  Obj (if isIndex key then KArray 0 else KObject) ∅.

(** That object once [key] is written: it holds the key alone, and is an
    array (of the length the index asks for) when the key is an index, a
    plain object otherwise. *)
Definition fresh_object (key : string) (value : val) : object :=
  Obj (if isIndex key
       then KArray (match array_index key with Some i => i + 1 | None => 0 end)
       else KObject)
      (<[key := value]> ∅).

(** What [baseSet] builds below a slot that held no object: one new object
    per remaining key, from location [base] on, each referring to the
    next; the last holds the value. *)
Fixpoint chain (base : nat) (path : list string) (value : val) : list object :=
  match path with
  | [] => []
  | key :: rest =>
      match rest with
      | [] => [fresh_object key value]
      | _ :: _ => fresh_object key (VRef (S base)) :: chain (S base) rest value
      end
  end.

(** The two spellings of a name with two keys, [k1.k2] and [k1[k2]], and
    the keys they are stated for: one or more letters, digits and
    underscores. *)
Definition dotted (k1 k2 : string) : string := k1 +:+ "." +:+ k2.

Definition bracketed (k1 k2 : string) : string := k1 +:+ "[" +:+ k2 +:+ "]".

Definition word (k : string) : bool :=
  negb (String.eqb k "") && reIsPlainProp k.

(** A state object of the store whose [fieldsValues] and [errors] do not
    dangle. *)
Definition anchored (h : heap) (s : val) : Prop :=
  ∃ ls, s = VRef ls ∧ (ls < length h)%nat
        ∧ val_ok (length h) (get_prop h s "fieldsValues") = true
        ∧ val_ok (length h) (get_prop h s "errors") = true.


End Edits.

(** ** A loader that does not resolve *)

Module Loading.
Import JS FormBuilder.

(** How the promise of the loader ends: resolved with a value at some time,
    rejected at some time, or never settled. *)
Inductive settlement :=
  | Resolved (at_time : N) (value : val)
  | Rejected (at_time : N)
  | Pending.

Definition resolves (outcome : settlement) : bool :=
  match outcome with
  | Resolved _ _ => true
  | _ => false
  end.

(** The host of [host], for a promise that may end in any of the three
    ways.  [await] on a rejected promise throws inside the asynchronous
    function, and [loadInitialData] has no handler around it, so the rest
    of its body does not run; on a promise that never settles the function
    never resumes.  A timer set before the [await] still fires. *)
Fixpoint host_settling (outcome : settlement) (late : N) (now : N) (p : script)
  : list (N * action) :=
  match p with
  | Done => []
  | Dispatch a next => (now, a) :: host_settling outcome late now next
  | Await next =>
      match outcome with
      | Resolved resolved_at loaded =>
          host_settling outcome late (N.max now resolved_at) (next loaded)
      | Rejected _ | Pending => []
      end
  | SetTimeout callback ms next =>
      host_settling outcome late now next
      ++ host_settling outcome late (now + ms + late) callback
  end.

End Loading.

(** ** A state with an array in it *)

Module Examples2.
Import JS FormBuilder.

(** [{ fieldsValues: { items: ["x"] }, errors: {}, loadingInitialData: false }] *)
Definition store_items : heap :=
  module_heap
  ++ [ Obj (KArray 1) (<["0" := VStr "x"]> ∅);
       Obj KObject (<["items" := VRef 6%nat]> ∅);
       Obj KObject ∅;
       state_object (VRef 7%nat) (VRef 8%nat) (VBool false) ].

Definition state_items : val := VRef 9%nat.

End Examples2.

(** ** Keys that name no inherited member *)

Module Ordinary.
Import JS Lodash FormBuilder.

(** What an array, a string and a number inherit beside the members of
    [Object.prototype] (the methods of ECMAScript 2023 and the legacy
    string methods). *)
Definition array_prototype_members : list string :=
  [ "at"; "concat"; "copyWithin"; "entries"; "every"; "fill"; "filter"; "find";
    "findIndex"; "findLast"; "findLastIndex"; "flat"; "flatMap"; "forEach";
    "includes"; "indexOf"; "join"; "keys"; "lastIndexOf"; "map"; "pop"; "push";
    "reduce"; "reduceRight"; "reverse"; "shift"; "slice"; "some"; "sort";
    "splice"; "toReversed"; "toSorted"; "toSpliced"; "unshift"; "values"; "with" ].

Definition string_prototype_members : list string :=
  [ "anchor"; "at"; "big"; "blink"; "bold"; "charAt"; "charCodeAt"; "codePointAt";
    "concat"; "endsWith"; "fixed"; "fontcolor"; "fontsize"; "includes"; "indexOf";
    "isWellFormed"; "italics"; "lastIndexOf"; "link"; "localeCompare"; "match";
    "matchAll"; "normalize"; "padEnd"; "padStart"; "repeat"; "replace";
    "replaceAll"; "search"; "slice"; "small"; "split"; "startsWith"; "strike";
    "sub"; "substr"; "substring"; "sup"; "toLocaleLowerCase"; "toLocaleUpperCase";
    "toLowerCase"; "toUpperCase"; "toWellFormed"; "trim"; "trimEnd"; "trimLeft";
    "trimRight"; "trimStart" ].

Definition number_prototype_members : list string :=
  [ "toExponential"; "toFixed"; "toPrecision" ].

Definition builtin_members : list string :=
  object_prototype_members ++ array_prototype_members
  ++ string_prototype_members ++ number_prototype_members.

(** [get_prop] reads own properties, where [object[key]] in the source
    also finds what the object inherits: for a key that names a member of
    a built-in prototype the two differ unless the object has a property
    of that name itself.  A statement that depends on such a read is made
    for keys that name no such member. *)
Definition ordinary_key (key : string) : bool :=
  bool_decide (key ∉ builtin_members).

(** [baseSet] reads [nested[key]] for every key of the path but the last,
    which it assigns to (and an assignment creates an own property,
    whatever the object inherits under that name). *)
Definition ordinary_walk (path : list string) : bool :=
  forallb ordinary_key (removelast path).


End Ordinary.

(** ** The footprint of [baseSet], with the [length] of arrays

    An assignment to the [length] of an array is the one write of
    [baseSet] that can throw, and the one that changes more than the slot
    it is made to: it deletes the elements at and above the new length. *)

Module Writes.
Import JS Lodash FormBuilder Footprint Edits.

(** The length [arr.length = v] gives an array, when the language accepts
    [v] as a length. *)
Definition new_length (v : val) : result N :=
  match array_set_length (Obj (KArray 0) ∅) v with
  | Ok o =>
      match okind o with
      | KArray n => Ok n
      | KObject => Throw OutOfModel
      end
  | Throw e => Throw e
  end.



(** An assignment of [v] to slot [kc] of [o] changes what a read of slot
    [k] of [o] gives: the slot itself; the [length] of an array (a write to
    an index may raise it); the elements a new length deletes. *)
Definition hits (o : object) (kc : string) (v : val) (k : string) : bool :=
  String.eqb k kc
  || (is_array o
      && (String.eqb k "length"
          || (String.eqb kc "length"
              && match new_length v, array_index k with
                 | Ok n, Some i => (n <=? i)%N
                 | _, _ => false
                 end))).











(** *** The field update of the reducer

    The reducer hands [set] the copy [{ ...state.fieldsValues }]: the path
    of the name is the one [castPath] finds on that copy, and the slots of
    the update are named from it. *)








(** *** What is stored under a path *)



End Writes.

(** ** More stores for the examples *)

Module Examples3.
Import JS FormBuilder.








End Examples3.

(** * Proofs *)

Import JS Lodash FormBuilder Footprint Examples.

(** * Facts about the store *)

Section store_facts.
Implicit Types (h : heap) (o : object) (l : loc) (k key : string) (v w : val).

Lemma lookup_alloc_old h o l :
  (l < length h)%nat → (h ++ [o]) !! l = h !! l.
Proof. intros Hl. by rewrite lookup_app_l. Qed.

Lemma lookup_alloc_new h o : (h ++ [o]) !! length h = Some o.
Proof. by rewrite lookup_app_r, Nat.sub_diag. Qed.

Lemma get_prop_alloc h o l k :
  (l < length h)%nat → get_prop (h ++ [o]) (VRef l) k = get_prop h (VRef l) k.
Proof. intros Hl. unfold get_prop. by rewrite lookup_alloc_old. Qed.

Lemma string_eqb_false a b : a ≠ b → String.eqb a b = false.
Proof. intros. by apply String.eqb_neq. Qed.

(** A write that is not to the [length] of an array succeeds and stores the
    value as an own property. *)
Lemma obj_set_ok o k v :
  is_array o && String.eqb k "length" = false →
  ∃ o', obj_set o k v = Ok o'
        ∧ oprops o' = <[k:=v]> (oprops o)
        ∧ is_array o' = is_array o.
Proof.
  destruct o as [kd props]. unfold obj_set, is_array. simpl. intros Hw.
  destruct kd as [|len]; simpl in *.
  - eauto.
  - rewrite Hw. destruct (array_index k); eauto.
Qed.

Lemma obj_get_props o k :
  is_array o && String.eqb k "length" = false →
  obj_get o k = default VUndefined (oprops o !! k).
Proof.
  destruct o as [kd props]. unfold obj_get, is_array. simpl.
  destruct kd; simpl; [done|]. by intros ->.
Qed.

Lemma obj_get_ref o k l :
  obj_get o k = VRef l → oprops o !! k = Some (VRef l)
                         ∧ is_array o && String.eqb k "length" = false.
Proof.
  destruct o as [kd props]. unfold obj_get, is_array. simpl.
  destruct kd; simpl.
  - destruct (props !! k); simpl; intros; by simplify_eq.
  - destruct (String.eqb k "length"); [done|].
    destruct (props !! k); simpl; intros; by simplify_eq.
Qed.

Lemma has_own_props o k :
  is_Some (oprops o !! k) → has_own o k = true.
Proof.
  intros Hs. unfold has_own. destruct (okind o).
  - by apply bool_decide_eq_true.
  - apply orb_true_iff. right. by apply bool_decide_eq_true.
Qed.

End store_facts.

(** * Stores without dangling references *)

Lemma closed_closedP h : closed h = true → closedP h.
Proof.
  unfold closed, closedP. rewrite forallb_forall.
  intros Hall l o k l' Hl Hk.
  assert (Hin : In o h).
  { apply list_elem_of_In. by eapply list_elem_of_lookup_2. }
  specialize (Hall o Hin). unfold object_ok in Hall.
  apply bool_decide_eq_true in Hall.
  specialize (Hall k _ Hk). simpl in Hall. by apply Nat.ltb_lt in Hall.
Qed.

Lemma closedP_closed h : closedP h → closed h = true.
Proof.
  unfold closed, closedP. intros Hc. rewrite forallb_forall.
  intros o Hin. apply list_elem_of_In, list_elem_of_lookup in Hin as [l Hl].
  unfold object_ok. apply bool_decide_eq_true. intros k v Hk.
  destruct v; simpl; try done. apply Nat.ltb_lt. eauto.
Qed.

Lemma val_ok_mono n m v : (n ≤ m)%nat → val_ok n v = true → val_ok m v = true.
Proof.
  destruct v; simpl; try done. rewrite !Nat.ltb_lt. lia.
Qed.

Lemma closedP_alloc h o :
  closedP h → map_Forall (λ _ v, val_ok (S (length h)) v = true) (oprops o) →
  closedP (h ++ [o]).
Proof.
  intros Hc Ho l o1 k l' Hl Hk. rewrite length_app. simpl.
  destruct (decide (l < length h)%nat) as [Hlt|Hge].
  - rewrite lookup_alloc_old in Hl by done. specialize (Hc _ _ _ _ Hl Hk). lia.
  - apply lookup_lt_Some in Hl as Hl'. rewrite length_app in Hl'. simpl in Hl'.
    assert (l = length h) as -> by lia.
    rewrite lookup_alloc_new in Hl. simplify_eq.
    specialize (Ho _ _ Hk). simpl in Ho. apply Nat.ltb_lt in Ho. lia.
Qed.

Lemma closedP_insert h l o o' k v :
  closedP h → h !! l = Some o → oprops o' = <[k:=v]> (oprops o) →
  val_ok (length h) v = true → closedP (<[l:=o']> h).
Proof.
  intros Hc Hl Hp Hv l1 o1 k1 l' Hl1 Hk1. rewrite length_insert.
  destruct (decide (l1 = l)) as [->|Hne].
  - rewrite list_lookup_insert_eq in Hl1 by (by eapply lookup_lt_Some).
    simplify_eq. rewrite Hp in Hk1.
    destruct (decide (k = k1)) as [->|Hk].
    + rewrite lookup_insert_eq in Hk1. simplify_eq. simpl in Hv.
      by apply Nat.ltb_lt in Hv.
    + rewrite lookup_insert_ne in Hk1 by done. eauto.
  - rewrite list_lookup_insert_ne in Hl1 by done. eauto.
Qed.

(** * [assignValue] *)

Lemma assignValue_noop h l o k v :
  h !! l = Some o → has_own o k = true → obj_get o k = v →
  assignValue h (VRef l) k v = Ok h.
Proof.
  intros Hl Hown Hget. unfold assignValue, own_in, key_in, get_prop, lodash_eq.
  rewrite Hl, Hown, Hget. rewrite bool_decide_eq_true_2 by done. simpl.
  rewrite andb_false_r. done.
Qed.

Lemma assignValue_spec h l o k v :
  h !! l = Some o → is_array o && String.eqb k "length" = false →
  ∃ h' o', assignValue h (VRef l) k v = Ok h'
    ∧ length h' = length h
    ∧ h' !! l = Some o'
    ∧ oprops o' = <[k:=v]> (oprops o)
    ∧ is_array o' = is_array o
    ∧ (∀ l0, l0 ≠ l → h' !! l0 = h !! l0).
Proof.
  intros Hl Hw. unfold assignValue.
  destruct (negb (own_in h (VRef l) k && lodash_eq (get_prop h (VRef l) k) v)
            || bool_decide (v = VUndefined) && negb (key_in h (VRef l) k)) eqn:Hc.
  - unfold baseAssignValue. rewrite Hl.
    destruct (obj_set_ok o k v Hw) as (o' & Hset & Hp & Ha).
    rewrite Hset. simpl. exists (<[l:=o']> h), o'.
    split; [done|]. split; [by rewrite length_insert|].
    split; [apply list_lookup_insert_eq; by eapply lookup_lt_Some|].
    split; [done|]. split; [done|].
    intros l0 Hne. by rewrite list_lookup_insert_ne.
  - apply orb_false_iff in Hc as [Hc _]. apply negb_false_iff, andb_true_iff in Hc as [Hown Heq].
    unfold own_in, key_in in Hown. rewrite Hl in Hown.
    unfold lodash_eq in Heq. apply bool_decide_eq_true in Heq.
    unfold get_prop in Heq. rewrite Hl in Heq.
    exists h, o. split; [done|]. split; [done|]. split; [done|].
    split; [|done].
    rewrite obj_get_props in Heq by done.
    assert (Hs : is_Some (oprops o !! k)).
    { unfold has_own, is_array in *. destruct (okind o); simpl in *.
      - by apply bool_decide_eq_true in Hown.
      - rewrite Hw in Hown. simpl in Hown. by apply bool_decide_eq_true in Hown. }
    destruct Hs as [x Hx]. rewrite Hx in Heq. simpl in Heq. subst x.
    by rewrite insert_id.
Qed.

(** * [baseSet] *)

Lemma isIndex_not_length next : isIndex next = true → String.eqb next "length" = false.
Proof.
  intros Hi. destruct (String.eqb next "length") eqn:E; [|done].
  apply String.eqb_eq in E. subst. by vm_compute in Hi.
Qed.

Lemma isObject_ref v : isObject v = true → ∃ l, v = VRef l.
Proof. destruct v; simpl; try done. eauto. Qed.

Lemma get_prop_ref h l k l1 :
  get_prop h (VRef l) k = VRef l1 →
  ∃ o, h !! l = Some o ∧ oprops o !! k = Some (VRef l1)
       ∧ is_array o && String.eqb k "length" = false.
Proof.
  unfold get_prop. destruct (h !! l) as [o|] eqn:Hl; [|done].
  intros Hg. apply obj_get_ref in Hg as [? ?]. eauto.
Qed.

Lemma baseSet_loop_spec path : ∀ h l v,
  closedP h → (l < length h)%nat → val_ok (length h) v = true →
  writable h (VRef l) path = true →
  ∃ h', baseSet_loop h (VRef l) path v = Ok h'
    ∧ closedP h' ∧ (length h ≤ length h')%nat
    ∧ (no_revisit h (VRef l) path = true → settled h' (VRef l) path v = true)
    ∧ frame h h' (changed h (VRef l) path).
Proof.
  induction path as [|key rest IH]; intros h l v Hc Hl Hv Hw.
  { exists h. simpl. repeat split; try done. intros ???. done. }
  destruct (lookup_lt_is_Some_2 h l Hl) as [o Ho].
  cbn [baseSet_loop is_nullish]. unfold toKey.
  unfold writable, no_revisit in *. cbn [changed links settled isObject] in *.
  destruct (unsafe_key key) eqn:Hunsafe.
  { exists h. simpl. repeat split; try done. intros ???. done. }
  cbn [orb andb].
  destruct rest as [|next rest'].
  - (* last key *)
    rewrite Ho in Hw. apply negb_true_iff in Hw.
    destruct (assignValue_spec h l o key v Ho Hw) as (h2 & o' & Ha & Hlen & Hl2 & Hp & Harr & Hoth).
    exists h2. simpl. rewrite Ha. simpl.
    split; [done|].
    assert (Hh2 : h2 = <[l:=o']> h).
    { apply list_eq. intros i. destruct (decide (i = l)) as [->|Hne].
      - rewrite Hl2. symmetry. apply list_lookup_insert_eq. done.
      - rewrite Hoth by done. by rewrite list_lookup_insert_ne. }
    split. { rewrite Hh2. by eapply closedP_insert. }
    split; [lia|]. split.
    + intros _. unfold own_in, key_in, get_prop. rewrite Hl2.
      rewrite has_own_props by (rewrite Hp, lookup_insert_eq; eauto). simpl.
      apply bool_decide_eq_true.
      rewrite obj_get_props by (by rewrite Harr).
      by rewrite Hp, lookup_insert_eq.
    + intros l0 o0 Hl0. destruct (decide (l0 = l)) as [->|Hne].
      * simplify_eq. eauto.
      * by rewrite Hoth.
  - (* a key on the way *)
    destruct (isObject (get_prop h (VRef l) key)) eqn:Hobj.
    + (* the object is there *)
      apply isObject_ref in Hobj as [l1 Hg]. rewrite Hg in *.
      destruct (get_prop_ref _ _ _ _ Hg) as (o1 & Ho1 & Hk & Hwr). simplify_eq.
      cbn [mbind result_bind mret result_ret isObject].
      rewrite (assignValue_noop h l o key (VRef l1)); try done.
      2:{ apply has_own_props. eauto. }
      2:{ unfold get_prop in Hg. by rewrite Ho in Hg. }
      cbn [mbind result_bind]. rewrite Hg.
      assert (Hl1 : (l1 < length h)%nat) by eauto.
      destruct (IH h l1 v Hc Hl1 Hv Hw) as (h' & Hset & Hc' & Hlen & Hsettled & Hframe).
      exists h'. split; [done|]. split; [done|]. split; [done|].
      split; [|done].
      intros Hnr.
      assert (Htail : match changed h (VRef l1) (next :: rest') with
                      | Some c => bool_decide (c ∉ links h (VRef l1) (next :: rest'))
                      | None => true
                      end = true ∧
                      ∀ kc, changed h (VRef l1) (next :: rest') = Some (l, kc) → kc ≠ key).
      { destruct (changed h (VRef l1) (next :: rest')) as [[lc kc]|]; [|done].
        apply bool_decide_eq_true in Hnr. rewrite not_elem_of_cons in Hnr.
        destruct Hnr as [Hne Hnin]. split; [by apply bool_decide_eq_true|].
        intros kc1 ? ->. by simplify_eq. }
      destruct Htail as [Htail Hkc].
      specialize (Hsettled Htail).
      specialize (Hframe l o Ho).
      assert (Hg' : get_prop h' (VRef l) key = VRef l1).
      { destruct (changed h (VRef l1) (next :: rest')) as [[lc kc]|].
        - destruct (decide (l = lc)) as [<-|Hne].
          + destruct Hframe as (w & o0' & Hl' & Hp' & Harr').
            unfold get_prop. rewrite Hl'.
            rewrite obj_get_props by (by rewrite Harr').
            rewrite Hp', lookup_insert_ne by (by apply Hkc). by rewrite Hk.
          + unfold get_prop. rewrite Hframe. unfold get_prop in Hg. by rewrite Ho in Hg.
        - unfold get_prop. rewrite Hframe. unfold get_prop in Hg. by rewrite Ho in Hg. }
      rewrite Hg'. by rewrite Hsettled.
    + (* nothing there: a new container *)
      rewrite Ho in Hw. apply negb_true_iff in Hw.
      cbn [mbind result_bind mret result_ret alloc].
      set (new := Obj (if isIndex next then KArray 0 else KObject) ∅).
      set (h1 := h ++ [new]).
      assert (Ho1 : h1 !! l = Some o) by (unfold h1; by rewrite lookup_alloc_old).
      destruct (assignValue_spec h1 l o key (VRef (length h)) Ho1 Hw)
        as (h2 & o' & Ha & Hlen2 & Hl2 & Hp & Harr & Hoth).
      rewrite Ha. cbn [mbind result_bind].
      assert (Hlen1 : length h1 = S (length h)).
      { unfold h1. rewrite length_app. simpl. lia. }
      assert (Hnew : h2 !! length h = Some new).
      { rewrite Hoth by lia. unfold h1. apply lookup_alloc_new. }
      assert (Hg2 : get_prop h2 (VRef l) key = VRef (length h)).
      { unfold get_prop. rewrite Hl2. rewrite obj_get_props by (by rewrite Harr).
        by rewrite Hp, lookup_insert_eq. }
      rewrite Hg2.
      assert (Hh2 : h2 = <[l:=o']> h1).
      { apply list_eq. intros i. destruct (decide (i = l)) as [->|Hne].
        - rewrite Hl2. symmetry. apply list_lookup_insert_eq. lia.
        - rewrite Hoth by done. by rewrite list_lookup_insert_ne. }
      assert (Hc2 : closedP h2).
      { rewrite Hh2. eapply closedP_insert; [|done|done|].
        - apply closedP_alloc; [done|]. unfold new. simpl. apply map_Forall_empty.
        - simpl. apply Nat.ltb_lt. lia. }
      assert (Hgn : ∀ k, isObject (get_prop h2 (VRef (length h)) k) = false).
      { intros k. unfold get_prop. rewrite Hnew. unfold new, obj_get. simpl.
        destruct (isIndex next); simpl; [|done].
        destruct (String.eqb k "length"); done. }
      assert (Hw2 : writable h2 (VRef (length h)) (next :: rest') = true).
      { unfold writable. cbn [changed].
        destruct (unsafe_key next); [done|].
        assert (Hcell : match h2 !! length h with
                        | Some o => negb (is_array o && String.eqb next "length")
                        | None => false
                        end = true).
        { rewrite Hnew. unfold new, is_array. simpl.
          destruct (isIndex next) eqn:Hi; simpl; [|done].
          by rewrite isIndex_not_length. }
        destruct rest'; [done|]. by rewrite Hgn. }
      destruct (IH h2 (length h) v Hc2 ltac:(lia) ltac:(eapply val_ok_mono; [|done]; lia) Hw2)
        as (h' & Hset & Hc' & Hlen & Hsettled & Hframe).
      exists h'. split; [done|]. split; [done|]. split; [lia|].
      assert (Hl' : h' !! l = Some o').
      { specialize (Hframe l o' Hl2).
        destruct (changed h2 (VRef (length h)) (next :: rest')) as [[lc kc]|] eqn:Hch; [|done].
        assert (lc = length h) as ->.
        { cbn [changed] in Hch. destruct (unsafe_key next); [done|].
          destruct rest'; [by simplify_eq|]. rewrite Hgn in Hch. by simplify_eq. }
        destruct (decide (l = length h)); [lia|done]. }
      split.
      * intros _.
        assert (Hg' : get_prop h' (VRef l) key = VRef (length h)).
        { unfold get_prop. rewrite Hl'. rewrite obj_get_props by (by rewrite Harr).
          by rewrite Hp, lookup_insert_eq. }
        rewrite Hg'. cbn [isObject andb]. apply Hsettled.
        unfold no_revisit. cbn [changed links].
        destruct (unsafe_key next); [done|].
        destruct rest'; [by apply bool_decide_eq_true; set_solver|].
        rewrite Hgn. apply bool_decide_eq_true. set_solver.
      * intros l0 o0 Hl0. destruct (decide (l0 = l)) as [->|Hne].
        { simplify_eq. eauto. }
        assert (Hl0' : (l0 < length h)%nat) by (by eapply lookup_lt_Some).
        assert (H2 : h2 !! l0 = Some o0).
        { rewrite Hoth by done. unfold h1. by rewrite lookup_alloc_old. }
        specialize (Hframe l0 o0 H2).
        destruct (changed h2 (VRef (length h)) (next :: rest')) as [[lc kc]|] eqn:Hch; [|done].
        assert (lc = length h) as ->.
        { cbn [changed] in Hch. destruct (unsafe_key next); [done|].
          destruct rest'; [by simplify_eq|]. rewrite Hgn in Hch. by simplify_eq. }
        destruct (decide (l0 = length h)); [lia|done].
Qed.

(** * Settled paths *)

Lemma settled_get path : ∀ h nested v,
  path ≠ [] → safe_path path = true →
  settled h nested path v = true → baseGet_loop h nested path = Some v.
Proof.
  induction path as [|key rest IH]; intros h nested v Hne Hsafe Hs; [done|].
  cbn [baseGet_loop settled safe_path forallb] in *. unfold toKey.
  apply andb_true_iff in Hsafe as [Hk Hsafe]. apply negb_true_iff in Hk.
  rewrite Hk in Hs. cbn [orb] in Hs.
  apply andb_true_iff in Hs as [Hobj Hs].
  apply isObject_ref in Hobj as [l ->]. cbn [is_nullish].
  destruct rest as [|next rest'].
  - apply andb_true_iff in Hs as [_ Hg]. apply bool_decide_eq_true in Hg.
    by rewrite Hg.
  - apply andb_true_iff in Hs as [_ Hs]. by apply IH.
Qed.

(** A settled path stays settled in a store that keeps every object. *)
Lemma settled_ext path : ∀ (h h' : heap) nested v,
  (∀ l o, h !! l = Some o → h' !! l = Some o) →
  settled h nested path v = true → settled h' nested path v = true.
Proof.
  induction path as [|key rest IH]; intros h h' nested v Hext Hs; [done|].
  cbn [settled] in *.
  destruct (unsafe_key key); [done|]. cbn [orb] in *.
  apply andb_true_iff in Hs as [Hobj Hs]. rewrite Hobj. cbn [andb].
  apply isObject_ref in Hobj as [l ->].
  assert (Hsame : ∀ o, h !! l = Some o →
            get_prop h' (VRef l) key = get_prop h (VRef l) key
            ∧ own_in h' (VRef l) key = own_in h (VRef l) key).
  { intros o Ho. unfold get_prop, own_in, key_in. by rewrite (Hext _ _ Ho), Ho. }
  destruct rest as [|next rest'].
  - apply andb_true_iff in Hs as [Hown Hg].
    unfold own_in, key_in in Hown. destruct (h !! l) as [o|] eqn:Ho; [|done].
    destruct (Hsame o eq_refl) as [-> ->].
    unfold own_in, key_in. rewrite Ho, Hown. done.
  - apply andb_true_iff in Hs as [Hobj Hs].
    apply isObject_ref in Hobj as [l1 Hg].
    destruct (get_prop_ref _ _ _ _ Hg) as (o & Ho & _).
    destruct (Hsame o Ho) as [-> _]. rewrite Hg. cbn [isObject andb].
    rewrite Hg in Hs. by eapply IH.
Qed.

(** The first step of a settled path only looks at one slot of the root. *)
Lemma settled_root path h r1 r2 key v :
  isObject r1 = true → isObject r2 = true →
  get_prop h r1 key = get_prop h r2 key →
  own_in h r1 key = own_in h r2 key →
  settled h r1 (key :: path) v = settled h r2 (key :: path) v.
Proof.
  intros H1 H2 Hg Ho. cbn [settled]. by rewrite H1, H2, Hg, Ho.
Qed.

(** * [baseGet] reads the slots of [reads] and nothing else *)

Lemma baseGet_loop_reads path : ∀ (h h' : heap) object,
  (∀ l k, (l, k) ∈ reads h object path →
          get_prop h' (VRef l) k = get_prop h (VRef l) k) →
  baseGet_loop h' object path = baseGet_loop h object path.
Proof.
  induction path as [|key rest IH]; intros h h' object Hr; [done|].
  cbn [baseGet_loop reads] in *. unfold toKey.
  destruct (is_nullish object) eqn:Hn; [done|].
  destruct object as [| |b|z|s|l]; try done.
  - (* booleans *) simpl. apply IH. intros l k Hin.
    destruct rest; simpl in Hin; set_solver.
  - simpl. apply IH. intros l k Hin. destruct rest; simpl in Hin; set_solver.
  - (* strings *)
    assert (Hprim : ∀ p, reads h (get_prop h (VStr s) key) p = []).
    { intros p. unfold get_prop, str_get.
      destruct (String.eqb key "length"); [by destruct p|].
      destruct (array_index key); [|by destruct p].
      destruct (String.get _ s); by destruct p. }
    replace (get_prop h' (VStr s) key) with (get_prop h (VStr s) key) by done.
    apply IH. intros l k Hin. rewrite Hprim in Hin. set_solver.
  - rewrite Hr by set_solver. apply IH. intros l' k' Hin. apply Hr. set_solver.
Qed.

(** * The keys of a deep path are not the path itself *)

Lemma span_app p cs : (span p cs).1 ++ (span p cs).2 = cs.
Proof.
  induction cs as [|c cs IH]; [done|]. simpl.
  destruct (p c); [|done]. destruct (span p cs) as [run rest]. simpl in *.
  by rewrite IH.
Qed.

Lemma span_forallb p cs : forallb p (span p cs).1 = true.
Proof.
  induction cs as [|c cs IH]; [done|]. simpl.
  destruct (p c) eqn:Hp; [|done]. destruct (span p cs) as [run rest]. simpl in *.
  by rewrite Hp, IH.
Qed.

Lemma span_length p cs :
  (length (span p cs).1 + length (span p cs).2 = length cs)%nat.
Proof. rewrite <- (span_app p cs) at 3. by rewrite length_app. Qed.

Lemma quoted_length q : ∀ n cs acc body rest,
  (length cs ≤ n)%nat →
  quoted q cs acc = Some (body, rest) →
  (length body + 2 + length rest = length acc + length cs)%nat.
Proof.
  induction n as [|n IH]; intros cs acc body rest Hn Hq.
  { destruct cs; [done|simpl in Hn; lia]. }
  destruct cs as [|c cs']; [done|]. simpl in Hq, Hn.
  destruct (Ascii.eqb c q).
  - destruct cs' as [|d rest']; [done|].
    destruct (Ascii.eqb d rbracket); [|done]. simplify_eq.
    rewrite length_rev. simpl. lia.
  - destruct (Ascii.eqb c backslash).
    + destruct cs' as [|d cs'']; [done|].
      destruct (is_line_end d); [done|].
      apply IH in Hq; simpl in *; lia.
    + apply IH in Hq; simpl in *; lia.
Qed.

Lemma unescape_length : ∀ n cs, (length cs ≤ n)%nat → (length (unescape cs) ≤ length cs)%nat.
Proof.
  induction n as [|n IH]; intros cs Hn.
  { destruct cs; [done|simpl in Hn; lia]. }
  destruct cs as [|c cs']; [done|]. simpl in *.
  destruct (Ascii.eqb c backslash).
  - destruct cs' as [|d cs'']; [simpl; lia|].
    destruct (Ascii.eqb d backslash).
    + simpl. specialize (IH cs''). simpl in Hn. lia.
    + specialize (IH (d :: cs'')). simpl in *. lia.
  - simpl. specialize (IH cs'). lia.
Qed.

Lemma number_key_length cs num rest :
  number_key cs = Some (num, rest) → (length num + 1 + length rest = length cs)%nat.
Proof.
  unfold number_key.
  set (sc := match cs with
             | c :: r => if Ascii.eqb c minus then ([c], r) else ([], cs)
             | [] => ([], cs)
             end).
  assert (Hsc : (length sc.1 + length sc.2 = length cs)%nat).
  { unfold sc. destruct cs as [|c r]; [done|]. destruct (Ascii.eqb c minus); simpl; lia. }
  destruct sc as [sign cs1]. simpl in Hsc.
  pose proof (span_length is_digit cs1) as Hd.
  destruct (span is_digit cs1) as [ds cs2]. simpl in Hd.
  destruct ds as [|d ds']; [done|].
  set (fr := match cs2 with
             | c :: r =>
                 if Ascii.eqb c dot
                 then match span is_digit r with
                      | ([], _) => ([], cs2)
                      | (fs, r') => (c :: fs, r')
                      end
                 else ([], cs2)
             | [] => ([], cs2)
             end).
  assert (Hfr : (length fr.1 + length fr.2 = length cs2)%nat).
  { unfold fr. destruct cs2 as [|c r]; [done|]. destruct (Ascii.eqb c dot); [|done].
    pose proof (span_length is_digit r) as Hr.
    destruct (span is_digit r) as [fs r']. destruct fs; simpl in *; lia. }
  destruct fr as [frac cs3]. simpl in Hfr.
  destruct cs3 as [|c rest0]; [done|].
  destruct (Ascii.eqb c rbracket); [|done].
  intros ?. simplify_eq. rewrite !length_app. simpl in *. lia.
Qed.

Lemma short_key_mono key m m' : (m ≤ m')%nat → short_key key m → short_key key m'.
Proof.
  unfold short_key. intros ? [?|[[? ?]|?]].
  - left. lia.
  - right. left. split; [done|lia].
  - by right; right.
Qed.

Lemma match_here_short cs key consumed :
  match_here cs = Some (key, consumed) → short_key key (length cs).
Proof.
  unfold match_here. destruct cs as [|c cs']; [done|].
  destruct (negb (is_special c)) eqn:Hsp.
  - intros ?. simplify_eq. right. left. split; [apply span_forallb|].
    pose proof (span_length (λ x, negb (is_special x)) (c :: cs')). lia.
  - destruct (Ascii.eqb c lbracket).
    + destruct (number_key cs') as [[num rest]|] eqn:Hnum.
      { intros ?. simplify_eq. left. apply number_key_length in Hnum. simpl. lia. }
      destruct (quoted_key cs') as [[body rest]|] eqn:Hq.
      { intros ?. simplify_eq. left. unfold quoted_key in Hq.
        destruct cs' as [|q b]; [done|]. destruct (is_quote q); [|done].
        apply (quoted_length _ (length b)) in Hq; [|done].
        pose proof (unescape_length (length body) body). simpl in *. lia. }
      destruct (empty_key_here (c :: cs')); [|done].
      intros ?. simplify_eq. by right; right.
    + destruct (empty_key_here (c :: cs')); [|done].
      intros ?. simplify_eq. by right; right.
Qed.

Lemma scan_short cs : ∀ skip key,
  key ∈ scan skip cs → ∃ kl, key = string_of_list_ascii kl ∧ short_key kl (length cs).
Proof.
  induction cs as [|c cs' IH]; intros skip key Hin; [by apply elem_of_nil in Hin|].
  cbn [scan] in Hin.
  assert (Hstep : ∀ sk, key ∈ scan sk cs' →
            ∃ kl, key = string_of_list_ascii kl ∧ short_key kl (length (c :: cs'))).
  { intros sk Hk. destruct (IH sk key Hk) as (kl & -> & Hs).
    exists kl. split; [done|]. eapply short_key_mono; [|done]. simpl. lia. }
  destruct skip as [|n]; [|by eapply Hstep].
  destruct (match_here (c :: cs')) as [[kl consumed]|] eqn:Hm; [|by eapply Hstep].
  apply elem_of_cons in Hin as [->|Hin]; [|by eapply Hstep].
  exists kl. split; [done|]. by eapply match_here_short.
Qed.

Lemma deep_anywhere_special cs :
  deep_anywhere cs = true → forallb (λ x, negb (is_special x)) cs = false.
Proof.
  induction cs as [|c cs' IH]; [done|]. cbn [deep_anywhere forallb].
  intros Hd. apply orb_true_iff in Hd as [Hh|Ht].
  - unfold deep_here in Hh. unfold is_special.
    destruct (Ascii.eqb c dot); [done|].
    destruct (Ascii.eqb c lbracket); [done|done].
  - rewrite (IH Ht). apply andb_false_r.
Qed.

Lemma stringToPath_fresh s : reIsDeepProp s = true → s ∉ stringToPath s.
Proof.
  unfold reIsDeepProp, stringToPath. intros Hdeep Hin.
  set (cs := list_ascii_of_string s) in *.
  assert (Hs : s ∈ scan 0 cs ∨ s = "").
  { destruct cs as [|c cs']; [by left|].
    destruct (Ascii.eqb c dot); [|by left].
    apply elem_of_cons in Hin as [->|?]; [by right|by left]. }
  destruct Hs as [Hs | ->]; [|by vm_compute in Hdeep].
  apply scan_short in Hs as (kl & Hkl & Hshort).
  assert (kl = cs) as ->.
  { unfold cs. rewrite Hkl. by rewrite list_ascii_of_string_of_list_ascii. }
  destruct Hshort as [? | [[Hns _] | ->]]; [lia| |done].
  by rewrite deep_anywhere_special in Hns.
Qed.

(** * Lookups in a store without dangling references *)

Lemma get_prop_ok h x k :
  closedP h → val_ok (length h) (get_prop h x k) = true.
Proof.
  intros Hc. destruct (get_prop h x k) as [| | | | |l1] eqn:Hg; try done.
  destruct x as [| | | |s|l]; try done.
  - unfold get_prop, str_get in Hg. destruct (String.eqb k "length"); [done|].
    destruct (array_index k); [|done]. by destruct (String.get _ s).
  - destruct (get_prop_ref _ _ _ _ Hg) as (o & Ho & Hk & _).
    simpl. apply Nat.ltb_lt. eauto.
Qed.

Lemma reads_valid path : ∀ h x l k,
  closedP h → val_ok (length h) x = true →
  (l, k) ∈ reads h x path → (l < length h)%nat.
Proof.
  induction path as [|key rest IH]; intros h x l k Hc Hx Hin; [by apply elem_of_nil in Hin|].
  cbn [reads] in Hin. destruct x as [| | | | |l0]; try by apply elem_of_nil in Hin.
  apply elem_of_cons in Hin as [?|Hin].
  - simplify_eq. simpl in Hx. by apply Nat.ltb_lt in Hx.
  - eapply IH; [done| |done]. by apply get_prop_ok.
Qed.


(** * The field update of the reducer *)

Lemma field_name_value n v k :
  field (name_value n v) k =
    if String.eqb k "name" then VStr n
    else if String.eqb k "value" then v else VUndefined.
Proof.
  unfold field, name_value.
  destruct (String.eqb k "name") eqn:E1.
  { apply String.eqb_eq in E1 as ->. by rewrite lookup_insert_eq. }
  apply String.eqb_neq in E1. rewrite lookup_insert_ne by done.
  destruct (String.eqb k "value") eqn:E2.
  { apply String.eqb_eq in E2 as ->. by rewrite lookup_insert_eq. }
  apply String.eqb_neq in E2. by rewrite lookup_insert_ne.
Qed.

Lemma is_plain_inv h x :
  is_plain h x = true → ∃ l o, x = VRef l ∧ h !! l = Some o ∧ is_array o = false.
Proof.
  unfold is_plain. destruct x as [| | | | |l]; try done.
  destruct (h !! l) as [o|] eqn:Ho; [|done].
  intros Hn. apply negb_true_iff in Hn. eauto.
Qed.

Lemma wf_state_inv h s :
  wf_state h s = true →
  closedP h ∧
  ∃ ls so lfv ofv le oe,
    s = VRef ls ∧ h !! ls = Some so
    ∧ get_prop h s "fieldsValues" = VRef lfv ∧ h !! lfv = Some ofv ∧ is_array ofv = false
    ∧ get_prop h s "errors" = VRef le ∧ h !! le = Some oe ∧ is_array oe = false.
Proof.
  unfold wf_state. rewrite !andb_true_iff.
  intros [[[[Hc Hs] Hobj] Hfv] Herr].
  split; [by apply closed_closedP|].
  apply isObject_ref in Hobj as [ls ->].
  simpl in Hs. apply Nat.ltb_lt in Hs.
  destruct (lookup_lt_is_Some_2 h ls Hs) as [so Hso].
  apply is_plain_inv in Hfv as (lfv & ofv & Hfv & Hofv & Hafv).
  apply is_plain_inv in Herr as (le & oe & He & Hoe & Hae).
  exists ls, so, lfv, ofv, le, oe. done.
Qed.

(** The reducer's field update, step by step, on a form state. *)
Lemma on_field_value_change_run h ls so lfv ofv n v :
  h !! ls = Some so →
  get_prop h (VRef ls) "fieldsValues" = VRef lfv → h !! lfv = Some ofv →
  on_field_value_change h (VRef ls) (name_value n v) =
    (h2 ← baseSet_loop (with_copy h (VRef lfv)) (the_copy h)
            (castPath (with_copy h (VRef lfv)) n (the_copy h)) v;
     mret ((h2 ++ [Obj KObject (spread h2 (the_copy h) ∪ oprops ofv)])
             ++ [Obj KObject (<["fieldsValues" := VRef (length h2)]> (oprops so))],
           VRef (S (length h2)))).
Proof.
  intros Hso Hfv Hofv. unfold on_field_value_change, member, with_copy, the_copy.
  cbn [is_nullish]. cbn [mbind result_bind mret result_ret].
  rewrite Hfv. cbn [is_nullish alloc spread].
  rewrite Hofv, Hso. rewrite !field_name_value. simpl String.eqb.
  cbn [to_property_key mbind result_bind].
  unfold set, baseSet. cbn [is_nullish isObject negb].
  destruct (baseSet_loop _ _ _ _) as [h2|e]; [|done].
  cbn [mbind result_bind mret result_ret alloc].
  rewrite length_app. simpl. by rewrite Nat.add_1_r.
Qed.

Lemma reducer_field_change h ls n v :
  reducer h (VRef ls) (field_change n v) =
    ('(h', s') ← on_field_value_change h (VRef ls) (name_value n v); mret (h', s', [])).
Proof. done. Qed.

(** On a plain [fieldsValues], the path is the same read from the copy. *)
Lemma castPath_copy h lfv ofv n :
  h !! lfv = Some ofv → is_array ofv = false →
  castPath (with_copy h (VRef lfv)) n (the_copy h) = castPath h n (VRef lfv).
Proof.
  intros Ho Ha. unfold castPath, isKey, key_in, with_copy, the_copy. cbn [is_nullish negb andb].
  rewrite lookup_alloc_new. cbn [spread]. rewrite Ho.
  replace (has_own (Obj KObject (oprops ofv)) n) with (has_own ofv n); [done|].
  unfold has_own, is_array in *. simpl. by destruct (okind ofv).
Qed.

Lemma union_absorb (A F : gmap string val) :
  (∀ k, A !! k = None → F !! k = None) → A ∪ F = A.
Proof.
  intros H. apply map_eq. intros k.
  destruct (A !! k) as [x|] eqn:E.
  - by apply lookup_union_Some_l.
  - rewrite lookup_union_r by done. by apply H.
Qed.

(** Everything the later statements use about one field update. *)
Lemma field_update_core h s n v :
  wf_state h s = true → val_ok (length h) v = true →
  let fv := get_prop h s "fieldsValues" in
  let path := castPath h n fv in
  let h1 := with_copy h fv in
  writable h1 (the_copy h) path = true →
  ∃ h2 h4 copy' ls so,
    baseSet_loop h1 (the_copy h) path v = Ok h2
    ∧ reducer h s (field_change n v) = Ok (h4, VRef (S (length h2)), [])
    ∧ s = VRef ls ∧ h !! ls = Some so
    ∧ h2 !! length h = Some copy' ∧ is_array copy' = false
    ∧ closedP h2 ∧ (S (length h) ≤ length h2)%nat
    ∧ frame h1 h2 (update_slot h fv n)
    ∧ (no_revisit h1 (the_copy h) path = true → settled h2 (the_copy h) path v = true)
    ∧ length h4 = S (S (length h2))
    ∧ (∀ l o, h2 !! l = Some o → h4 !! l = Some o)
    ∧ h4 !! length h2 = Some (Obj KObject (oprops copy'))
    ∧ h4 !! S (length h2) = Some (Obj KObject (<["fieldsValues" := VRef (length h2)]> (oprops so)))
    ∧ closedP h4.
Proof.
  intros Hwf Hv fv path h1 Hw.
  destruct (wf_state_inv h s Hwf) as (Hc & ls & so & lfv & ofv & le & oe & -> & Hso & Hfv & Hofv & Hafv & _).
  subst fv path h1. rewrite Hfv in *.
  assert (Hc1 : closedP (with_copy h (VRef lfv))).
  { unfold with_copy. apply closedP_alloc; [done|]. simpl. rewrite Hofv.
    intros k x Hk. destruct x; try done. simpl. apply Nat.ltb_lt.
    specialize (Hc _ _ _ _ Hofv Hk). lia. }
  assert (Hlen1 : length (with_copy h (VRef lfv)) = S (length h)).
  { unfold with_copy. rewrite length_app. simpl. lia. }
  destruct (baseSet_loop_spec (castPath h n (VRef lfv)) (with_copy h (VRef lfv)) (length h) v)
    as (h2 & Hset & Hc2 & Hlen2 & Hsettled & Hframe); try done.
  { lia. } { eapply val_ok_mono; [|done]. lia. }
  assert (Hcopy : with_copy h (VRef lfv) !! length h = Some (Obj KObject (oprops ofv))).
  { unfold with_copy. rewrite lookup_alloc_new. simpl. by rewrite Hofv. }
  assert (∃ copy', h2 !! length h = Some copy' ∧ is_array copy' = false
            ∧ ∀ k, oprops copy' !! k = None → oprops ofv !! k = None)
    as (copy' & Hcopy' & Hacopy & Hkeys).
  { specialize (Hframe _ _ Hcopy).
    destruct (changed _ _ _) as [[lc kc]|].
    - destruct (decide (length h = lc)) as [<-|Hne].
      + destruct Hframe as (w & o' & Ho' & Hp & Ha). exists o'.
        split; [done|]. split; [done|]. intros k. rewrite Hp. simpl.
        intros Hk. apply lookup_insert_None in Hk. by destruct Hk.
      + eexists. split; [done|]. done.
    - eexists. split; [done|]. done. }
  set (h3 := h2 ++ [Obj KObject (oprops copy')]).
  set (h4 := h3 ++ [Obj KObject (<["fieldsValues" := VRef (length h2)]> (oprops so))]).
  assert (Hlen3 : length h3 = S (length h2)).
  { unfold h3. rewrite length_app. simpl. lia. }
  exists h2, h4, copy', ls, so. unfold the_copy in *.
  split; [done|]. split.
  { rewrite reducer_field_change.
    rewrite (on_field_value_change_run h ls so lfv ofv n v) by done.
    rewrite (castPath_copy h lfv ofv n) by done. unfold the_copy. rewrite Hset.
    cbn [mbind result_bind mret result_ret spread]. rewrite Hcopy'.
    by rewrite union_absorb. }
  split; [done|]. split; [done|]. split; [done|]. split; [done|].
  split; [done|]. split; [lia|]. split; [done|]. split; [done|].
  split. { unfold h4. rewrite length_app. simpl. lia. }
  assert (Hext : ∀ l o, h2 !! l = Some o → h4 !! l = Some o).
  { intros l o Hl. unfold h4, h3. apply lookup_lt_Some in Hl as Hlt.
    rewrite !lookup_app_l; [done|lia|rewrite length_app; simpl; lia]. }
  split; [done|].
  split. { unfold h4. rewrite lookup_alloc_old by lia. unfold h3. apply lookup_alloc_new. }
  split. { unfold h4. rewrite <- Hlen3. apply lookup_alloc_new. }
  unfold h4. apply closedP_alloc.
  - unfold h3. apply closedP_alloc; [done|]. simpl.
    intros k x Hk. destruct x; try done. simpl. apply Nat.ltb_lt.
    specialize (Hc2 _ _ _ _ Hcopy' Hk). lia.
  - simpl. intros k x Hk. destruct x as [| | | | |l0]; try done. simpl. apply Nat.ltb_lt.
    apply lookup_insert_Some in Hk as [[_ ?]|[_ Hk]].
    + simplify_eq. lia.
    + specialize (Hc _ _ _ _ Hso Hk). lia.
Qed.

Lemma changed_key_in path : ∀ h x l k, changed h x path = Some (l, k) → k ∈ path.
Proof.
  induction path as [|key rest IH]; intros h x l k Hc; [done|].
  cbn [changed] in Hc. destruct x as [| | | | |l0]; try done.
  destruct (unsafe_key key); [done|].
  destruct rest as [|next rest']; [simplify_eq; set_solver|].
  destruct (isObject (get_prop h (VRef l0) key)).
  - apply IH in Hc. apply elem_of_cons. by right.
  - simplify_eq. set_solver.
Qed.

Lemma plain_eta o : is_array o = false → o = Obj KObject (oprops o).
Proof. destruct o as [[|len] props]; by unfold is_array. Qed.

Lemma get_prop_plain h l o k :
  h !! l = Some o → is_array o = false →
  get_prop h (VRef l) k = default VUndefined (oprops o !! k).
Proof.
  intros Ho Ha. unfold get_prop. rewrite Ho. apply obj_get_props. by rewrite Ha.
Qed.

Lemma key_in_plain h l o k :
  h !! l = Some o → is_array o = false →
  key_in h (VRef l) k = bool_decide (is_Some (oprops o !! k)).
Proof.
  intros Ho Ha. unfold key_in. rewrite Ho. unfold has_own, is_array in *.
  by destruct (okind o).
Qed.

(** The path of a name is the same after the update, provided the update
    did not create a top-level property of that very name. *)
Lemma castPath_same (h h' : heap) l o l' o' q :
  h !! l = Some o → is_array o = false →
  h' !! l' = Some o' → is_array o' = false →
  (is_Some (oprops o' !! q) ↔ is_Some (oprops o !! q)) →
  castPath h' q (VRef l') = castPath h q (VRef l).
Proof.
  intros Ho Ha Ho' Ha' Hq. unfold castPath, isKey. cbn [is_nullish negb andb].
  rewrite (key_in_plain h l o), (key_in_plain h' l' o') by done.
  by rewrite (bool_decide_ext _ _ Hq).
Qed.

Lemma castPath_cases h q x :
  castPath h q x = [q] ∨ (castPath h q x = stringToPath q ∧ reIsDeepProp q = true).
Proof.
  unfold castPath, isKey. destruct (reIsPlainProp q); [by left|].
  destruct (reIsDeepProp q); [|by left]. simpl.
  destruct (negb (is_nullish x) && key_in h x q); [by left|by right].
Qed.

(** What the state returned by a field update looks like, seen from the
    store the update started in. *)
Lemma field_update_shape h s n v :
  wf_state h s = true → val_ok (length h) v = true →
  let fv := get_prop h s "fieldsValues" in
  let path := castPath h n fv in
  let h1 := with_copy h fv in
  writable h1 (the_copy h) path = true →
  ∃ h2 h' s' lf merged lfv ofv,
    reducer h s (field_change n v) = Ok (h', s', [])
    ∧ (∃ ls so, s = VRef ls ∧ h !! ls = Some so ∧ s' = VRef (S lf) ∧ length h' = S (S lf)
         ∧ h' !! S lf = Some (Obj KObject (<["fieldsValues" := VRef lf]> (oprops so))))
    ∧ (∀ l o, h !! l = Some o → ∃ o', h' !! l = Some o' ∧ is_array o' = is_array o)
    ∧ fv = VRef lfv ∧ h !! lfv = Some ofv ∧ is_array ofv = false
    ∧ get_prop h' s' "fieldsValues" = VRef lf
    ∧ h' !! lf = Some (Obj KObject merged)
    ∧ h' !! length h = Some (Obj KObject merged)
    ∧ closedP h1 ∧ closedP h' ∧ (length h1 ≤ length h2)%nat
    ∧ (∀ l o, h2 !! l = Some o → h' !! l = Some o)
    ∧ frame h1 h2 (update_slot h fv n)
    ∧ (match update_slot h fv n with
       | Some (lc, kc) =>
           if decide (lc = length h)
           then ∃ w, merged = <[kc:=w]> (oprops ofv)
           else merged = oprops ofv
       | None => merged = oprops ofv
       end)
    ∧ (no_revisit h1 (the_copy h) path = true → settled h' (VRef lf) path v = true).
Proof.
  intros Hwf Hv fv path h1 Hw.
  destruct (field_update_core h s n v Hwf Hv Hw)
    as (h2 & h4 & copy' & ls & so & Hset & Hred & -> & Hso & Hcopy' & Hacopy & Hc2 & Hlen2
        & Hframe & Hsettled & Hlen4 & Hext & Hlf & Hls & Hc4).
  destruct (wf_state_inv h _ Hwf) as (Hc & ls0 & so0 & lfv & ofv & le & oe & ? & Hso0 & Hfv & Hofv & Hafv & _).
  simplify_eq. subst fv path h1. rewrite Hfv in *.
  assert (Hcopy : with_copy h (VRef lfv) !! length h = Some (Obj KObject (oprops ofv))).
  { unfold with_copy. rewrite lookup_alloc_new. simpl. by rewrite Hofv. }
  assert (Hlen1 : length (with_copy h (VRef lfv)) = S (length h)).
  { unfold with_copy. rewrite length_app. simpl. lia. }
  exists h2, h4, (VRef (S (length h2))), (length h2), (oprops copy'), lfv, ofv.
  split; [done|].
  split. { exists ls0, so. done. }
  split.
  { intros l o Hl. apply lookup_lt_Some in Hl as Hlt.
    assert (Hl1 : with_copy h (VRef lfv) !! l = Some o).
    { unfold with_copy. by rewrite lookup_alloc_old. }
    specialize (Hframe l o Hl1).
    destruct (update_slot h (VRef lfv) n) as [[lc kc]|]; [|eauto].
    destruct (decide (l = lc)); [|eauto].
    destruct Hframe as (w & o' & Ho' & _ & Ha). eauto. }
  split; [done|]. split; [done|]. split; [done|].
  split. { unfold get_prop. rewrite Hls. unfold obj_get. simpl. by rewrite lookup_insert_eq. }
  split; [done|].
  split. { rewrite (Hext _ _ Hcopy'). f_equal. by apply plain_eta. }
  split. { unfold with_copy. apply closedP_alloc; [done|]. simpl. rewrite Hofv.
    intros k x Hk. destruct x; try done. simpl. apply Nat.ltb_lt.
    specialize (Hc _ _ _ _ Hofv Hk). lia. }
  split; [done|]. split; [lia|]. split; [done|]. split; [done|].
  split.
  { pose proof (Hframe _ _ Hcopy) as Hf. unfold update_slot in *.
    destruct (changed _ _ _) as [[lc kc]|]; [|by simplify_eq].
    destruct (decide (length h = lc)) as [<-|Hne].
    - rewrite decide_True by done. destruct Hf as (w & o' & Ho' & Hp & _).
      simplify_eq. eauto.
    - rewrite decide_False by done. by simplify_eq. }
  intros Hnr. specialize (Hsettled Hnr).
  apply (settled_ext _ h2 h4) in Hsettled; [|done].
  destruct (castPath h n (VRef lfv)) as [|key rest]; [done|].
  unfold the_copy in Hsettled.
  rewrite (settled_root rest h4 (VRef (length h2)) (VRef (length h)) key v); try done.
  - unfold get_prop. rewrite Hlf, (Hext _ _ Hcopy').
    by rewrite (plain_eta copy') at 2.
  - unfold own_in, key_in. rewrite Hlf, (Hext _ _ Hcopy').
    by rewrite (plain_eta copy') at 2.
Qed.

Lemma update_ok_inv h fv n :
  update_ok h fv n = true →
  no_revisit (with_copy h fv) (the_copy h) (castPath h n fv) = true
  ∧ writable (with_copy h fv) (the_copy h) (castPath h n fv) = true.
Proof. unfold update_ok. by rewrite andb_true_iff. Qed.

(** The path of [n] itself is the same after the update. *)
Lemma castPath_updated (h h' : heap) lfv ofv lf merged n kc w :
  h !! lfv = Some ofv → is_array ofv = false →
  h' !! lf = Some (Obj KObject merged) →
  merged = <[kc:=w]> (oprops ofv) → kc ∈ castPath h n (VRef lfv) →
  castPath h' n (VRef lf) = castPath h n (VRef lfv).
Proof.
  intros Ho Ha Ho' -> Hin.
  destruct (decide (kc = n)) as [->|Hne].
  - (* the whole name is a key: it was one before, or it is plain *)
    destruct (castPath_cases h n (VRef lfv)) as [Hk|[Hk Hdeep]].
    + rewrite Hk. unfold castPath, isKey. cbn [is_nullish negb andb].
      rewrite (key_in_plain h' lf _ n Ho') by done. simpl.
      rewrite bool_decide_eq_true_2 by (rewrite lookup_insert_eq; eauto).
      by rewrite orb_true_r.
    + rewrite Hk in Hin. by apply stringToPath_fresh in Hin.
  - eapply castPath_same; try done. simpl. by rewrite lookup_insert_ne.
Qed.

(** After the update the path of [n] is settled in the new [fieldsValues],
    the old objects are still there with their kinds, and the result is
    again a form state. *)
Lemma field_update_settles h s n v :
  wf_state h s = true → val_ok (length h) v = true →
  update_ok h (get_prop h s "fieldsValues") n = true →
  ∃ h' ls so lf merged,
    reducer h s (field_change n v) = Ok (h', VRef (S lf), [])
    ∧ s = VRef ls ∧ h !! ls = Some so
    ∧ length h' = S (S lf)
    ∧ h' !! S lf = Some (Obj KObject (<["fieldsValues" := VRef lf]> (oprops so)))
    ∧ h' !! lf = Some (Obj KObject merged)
    ∧ wf_state h' (VRef (S lf)) = true
    ∧ castPath h' n (VRef lf) = castPath h n (get_prop h s "fieldsValues")
    ∧ settled h' (VRef lf) (castPath h n (get_prop h s "fieldsValues")) v = true.
Proof.
  intros Hwf Hv Hok. apply update_ok_inv in Hok as [Hnr Hw].
  destruct (field_update_shape h s n v Hwf Hv Hw)
    as (h2 & h' & s' & lf & merged & lfv & ofv & Hred & Hst & Hkinds & Hfv & Hofv & Hafv & Hfv'
        & Hlf & Hcopy' & Hc1 & Hc' & Hlen2 & Hext & Hframe & Hmerged & Hsettled).
  destruct Hst as (ls & so & -> & Hso & -> & Hlen' & Hls').
  destruct (wf_state_inv h _ Hwf)
    as (Hc & ls0 & so0 & lfv0 & ofv0 & le & oe & Hls0 & Hso0 & Hfv0 & Hofv0 & _ & He & Hoe & Hae).
  injection Hls0 as <-. rewrite Hso in Hso0. injection Hso0 as <-.
  exists h', ls, so, lf, merged.
  split; [done|]. split; [done|]. split; [done|]. split; [done|].
  split; [done|]. split; [done|].
  split.
  { unfold wf_state. rewrite !andb_true_iff. repeat split.
    - by apply closedP_closed.
    - simpl. apply Nat.ltb_lt. lia.
    - rewrite Hfv'. unfold is_plain. by rewrite Hlf.
    - assert (Herr : get_prop h' (VRef (S lf)) "errors" = VRef le).
      { unfold get_prop. rewrite Hls'. unfold obj_get. simpl.
        rewrite lookup_insert_ne by done.
        unfold get_prop in He. rewrite Hso in He.
        rewrite obj_get_props in He; [done|].
        destruct (is_array so) eqn:E; [|done]. simpl.
        unfold obj_get, is_array in *. destruct (okind so); [done|].
        by destruct (String.eqb "errors" "length"). }
      rewrite Herr. unfold is_plain.
      destruct (Hkinds _ _ Hoe) as (oe' & -> & ->). by rewrite Hae. }
  rewrite Hfv in *.
  split; [|by apply Hsettled].
  destruct (update_slot h (VRef lfv) n) as [[lc kc]|] eqn:Hslot.
  - destruct (decide (lc = length h)) as [->|Hne].
    + destruct Hmerged as [w Hm].
      eapply castPath_updated; try done.
      unfold update_slot in Hslot. by apply changed_key_in in Hslot.
    + subst merged. by eapply castPath_same.
  - subst merged. by eapply castPath_same.
Qed.

Lemma lookup_app_Some_l {A} (l1 l2 : list A) i x :
  l1 !! i = Some x → (l1 ++ l2) !! i = Some x.
Proof. intros H. rewrite lookup_app_l; [done|]. by eapply lookup_lt_Some. Qed.

Lemma baseGet_loop_ext path : ∀ (h h' : heap) x,
  closedP h → val_ok (length h) x = true →
  (∀ l o, h !! l = Some o → h' !! l = Some o) →
  baseGet_loop h' x path = baseGet_loop h x path.
Proof.
  intros h h' x Hc Hx Hext. apply baseGet_loop_reads. intros l k Hin.
  apply reads_valid in Hin; [|done..].
  destruct (lookup_lt_is_Some_2 _ _ Hin) as [o Ho].
  unfold get_prop. by rewrite Ho, (Hext _ _ Ho).
Qed.

(** * The other two handlers and the frame of each action *)

Lemma reducer_errors_change h ls n v :
  reducer h (VRef ls) (errors_change n v) =
    ('(h', s') ← on_errors_change h (VRef ls) (name_value n v); mret (h', s', [])).
Proof. done. Qed.

(** The error update: two new objects, nothing else changes. *)
Lemma on_errors_change_run h ls n v :
  on_errors_change h (VRef ls) (name_value n v) =
    Ok ((h ++ [Obj KObject (<[n:=v]> (spread h (get_prop h (VRef ls) "errors")))])
          ++ [Obj KObject (<["errors" := VRef (length h)]> (spread h (VRef ls)))],
        VRef (S (length h))).
Proof.
  unfold on_errors_change, member. cbn [is_nullish mbind result_bind].
  rewrite !field_name_value. simpl String.eqb.
  cbn [to_property_key mbind result_bind alloc mret result_ret].
  rewrite length_app. simpl. by rewrite Nat.add_1_r.
Qed.

Lemma get_prop_spread h l k :
  k ≠ "length" →
  get_prop h (VRef l) k = default VUndefined (spread h (VRef l) !! k).
Proof.
  intros Hk. unfold get_prop, spread. destruct (h !! l) as [o|]; [|done].
  apply obj_get_props. rewrite (string_eqb_false k "length") by done. apply andb_false_r.
Qed.

Lemma get_prop_new (h' : heap) l props k :
  h' !! l = Some (Obj KObject props) →
  get_prop h' (VRef l) k = default VUndefined (props !! k).
Proof. intros Hl. unfold get_prop. by rewrite Hl. Qed.


(** * Unrecognized action types *)

(** A type that is neither a key of [actionsMap] nor a member of
    [Object.prototype] is logged and leaves the state as it is. *)
Lemma reducer_unknown h ls t p :
  assoc t actionsMap = None → t ∉ object_prototype_members →
  reducer h (VRef ls) (Action t p)
  = Ok (h, VRef ls,
        [Diagnostic ("ACTION [" +:+ t +:+ "] NOT FOUND IN actionsMap")
                    [ON_STATE_CHANGE; ON_ERRORS_CHANGE; ON_FIELD_VALUE_CHANGE]]).
Proof.
  intros Hown Hinh. unfold reducer, in_actionsMap. cbn [type].
  rewrite Hown. rewrite bool_decide_eq_false_2 by (by intros [? ?]).
  by rewrite (bool_decide_eq_false_2 _ Hinh).
Qed.

(** C2, where the code departs from it.  [reducer] tests [action.type in
    actionsMap], and [in] also finds the members [actionsMap] inherits from
    [Object.prototype].  For the type [__proto__] the reducer throws a
    [TypeError]; for [toString] it returns the string [[object Object]] in
    place of the state; in neither case does it log. *)
Theorem reducer_inherited_type h s p :
  reducer h s (Action "__proto__" p) = Throw TypeError
  ∧ reducer h s (Action "toString" p)
    = Ok (h, VStr "[object Object]", []).
Proof. by destruct s. Qed.

(** * The field accessors *)

(** C8, as amended.  For the same store, context and field name the two
    accessors return together or throw the same error, and they return the
    same [fieldError], [state], [dispatch] and [onFieldChange].  The
    hook's [value] is the render-prop's when that is truthy and the
    default otherwise; the hook's [onChange] is the render-prop's, preceded
    by the error dispatch when a validator was given. *)
Theorem accessors_agree h ctx fieldName d validator :
  match FormBuilderField h ctx fieldName,
        useFormBuilderField h ctx fieldName d validator with
  | Ok p1, Ok p2 =>
      fieldError p2 = fieldError p1
      ∧ params_state p2 = params_state p1
      ∧ params_dispatch p2 = params_dispatch p1
      ∧ params_onFieldChange p2 = params_onFieldChange p1
      ∧ value p2 = (if truthy (value p1) then value p1 else d)
      ∧ (∀ v, onChange p2 v =
              match validator with
              | Some validate =>
                  dispatch ctx (errors_change fieldName
                                  (if truthy (validate v) then validate v else VBool false))
              | None => []
              end ++ onChange p1 v)
  | Throw e1, Throw e2 => e1 = e2
  | _, _ => False
  end.
Proof.
  unfold FormBuilderField, useFormBuilderField.
  destruct (member h (state ctx) "errors") as [errors|e]; [|done].
  cbn [mbind result_bind].
  destruct (member h errors fieldName) as [fe|e]; [|done].
  cbn [mbind result_bind].
  destruct (member h (state ctx) "fieldsValues") as [fv|e]; [|done].
  cbn [mbind result_bind mret result_ret fieldError value params_state
       params_dispatch params_onFieldChange onChange].
  repeat split. intros v. destruct validator as [validate|]; [|done].
  unfold errors_change. by destruct (truthy (validate v)).
Qed.

(** * Validation in the hook accessor *)

(** What a field update gives back, for the statements that chain it after
    another dispatch. *)
Lemma field_update_get h s n v :
  wf_state h s = true → val_ok (length h) v = true →
  update_ok h (get_prop h s "fieldsValues") n = true →
  castPath h n (get_prop h s "fieldsValues") ≠ [] →
  safe_path (castPath h n (get_prop h s "fieldsValues")) = true →
  ∃ h' s',
    reducer h s (field_change n v) = Ok (h', s', [])
    ∧ wf_state h' s' = true
    ∧ get h' (get_prop h' s' "fieldsValues") n = v
    ∧ get_prop h' s' "errors" = get_prop h s "errors".
Proof.
  intros Hwf Hv Hok Hne Hsafe.
  destruct (field_update_settles h s n v Hwf Hv Hok)
    as (h' & ls & so & lf & merged & Hred & -> & Hso & Hlen & Hls' & Hlf & Hwf' & Hpath & Hsettled).
  exists h', (VRef (S lf)). split; [done|]. split; [done|].
  assert (Hfv' : get_prop h' (VRef (S lf)) "fieldsValues" = VRef lf).
  { rewrite (get_prop_new _ _ _ _ Hls'). by rewrite lookup_insert_eq. }
  rewrite Hfv'. split.
  - unfold get, baseGet. cbn [is_nullish]. rewrite Hpath. unfold baseGet_path.
    rewrite (settled_get _ h' (VRef lf) v Hne Hsafe Hsettled).
    by destruct (castPath h n (get_prop h (VRef ls) "fieldsValues")).
  - rewrite (get_prop_new _ _ _ _ Hls'), lookup_insert_ne by done.
    rewrite get_prop_spread by done. unfold spread. by rewrite Hso.
Qed.

(** * [set] on a plain object, and the submit handler *)








(** * The loading phase on the host's clock *)

Lemma reducer_state_change h ls patch :
  reducer h (VRef ls) (Action ON_STATE_CHANGE patch)
  = Ok (h ++ [Obj KObject (patch ∪ spread h (VRef ls))], VRef (length h), []).
Proof. done. Qed.

(** C7.  With a loader, [loadInitialData] dispatches
    [{loadingInitialData: true}] at once and
    [{fieldsValues: loaded, loadingInitialData: false}] 3000 ms (or more,
    if the host is late) after the loader has resolved; without a loader it
    dispatches nothing.  From the first dispatch until 3000 ms after the
    resolution the state has [loadingInitialData] true; once the second
    has happened it is false and [fieldsValues] is the loaded value. *)
Theorem loading_lasts_three_seconds resolved_at loaded late now :
  host resolved_at loaded late now (loadInitialData true)
  = [ (now, loading_on);
      ((N.max now resolved_at + 3 * 1000 + late)%N, loading_off loaded) ]
  ∧ host resolved_at loaded late now (loadInitialData false) = []
  ∧ (∀ h ls t, (now ≤ t)%N → (t < resolved_at + 3000)%N →
       ∃ h' s',
         state_at h (VRef ls)
           (host resolved_at loaded late now (loadInitialData true)) t
         = Ok (h', s', [])
         ∧ get_prop h' s' "loadingInitialData" = VBool true)
  ∧ (∀ h ls t, (N.max now resolved_at + 3000 + late ≤ t)%N →
       ∃ h' s',
         state_at h (VRef ls)
           (host resolved_at loaded late now (loadInitialData true)) t
         = Ok (h', s', [])
         ∧ get_prop h' s' "loadingInitialData" = VBool false
         ∧ get_prop h' s' "fieldsValues" = loaded).
Proof.
  assert (Hon : ∀ m : gmap string val,
            default VUndefined
              ((<["loadingInitialData" := VBool true]> ∅ ∪ m) !! "loadingInitialData")
            = VBool true).
  { intros m. by rewrite (lookup_union_Some_l _ _ _ (VBool true)). }
  assert (Hoff : ∀ m : gmap string val,
            default VUndefined
              ((<["fieldsValues" := loaded]> (<["loadingInitialData" := VBool false]> ∅) ∪ m)
                 !! "loadingInitialData") = VBool false
            ∧ default VUndefined
                ((<["fieldsValues" := loaded]> (<["loadingInitialData" := VBool false]> ∅) ∪ m)
                   !! "fieldsValues") = loaded).
  { intros m. by rewrite (lookup_union_Some_l _ _ _ (VBool false)),
                         (lookup_union_Some_l _ _ _ loaded). }
  split; [done|]. split; [done|]. split.
  - intros h ls t Hnow Ht. unfold state_at. cbn [host loadInitialData app].
    cbn [filter list_filter fst].
    rewrite decide_True by done. rewrite decide_False by lia.
    cbn [filter list_filter map snd run].
    rewrite reducer_state_change. cbn [mbind result_bind mret result_ret app].
    eexists _, _. split; [done|].
    rewrite (get_prop_new _ (length h) _ _ (lookup_alloc_new _ _)). apply Hon.
  - intros h ls t Ht. unfold state_at. cbn [host loadInitialData app].
    cbn [filter list_filter fst].
    rewrite decide_True by lia. rewrite decide_True by lia.
    cbn [filter list_filter map snd run].
    rewrite !reducer_state_change. cbn [mbind result_bind mret result_ret app].
    eexists _, _. split; [done|].
    rewrite !(get_prop_new _ (length (h ++ [_])) _ _ (lookup_alloc_new _ _)).
    apply Hoff.
Qed.

(** * Stores without cycles *)

Section ranked.
Variable h : heap.
Variable rank : nat → nat.
Hypothesis ranked :
  ∀ l o k l', h !! l = Some o → oprops o !! k = Some (VRef l') → (rank l' < rank l)%nat.

Lemma changed_rank path : ∀ l lc kc,
  changed h (VRef l) path = Some (lc, kc) → (rank lc ≤ rank l)%nat.
Proof.
  induction path as [|key rest IH]; intros l lc kc Hch; [done|].
  cbn [changed] in Hch. destruct (unsafe_key key); [done|].
  destruct rest as [|next rest']; [by simplify_eq|].
  destruct (isObject (get_prop h (VRef l) key)) eqn:Hobj; [|by simplify_eq].
  apply isObject_ref in Hobj as [l1 Hg]. rewrite Hg in Hch.
  destruct (get_prop_ref _ _ _ _ Hg) as (o & Ho & Hk & _).
  pose proof (ranked _ _ _ _ Ho Hk) as Hr. apply IH in Hch. lia.
Qed.

Lemma links_rank path : ∀ l l' k' lc kc,
  (l', k') ∈ links h (VRef l) path →
  changed h (VRef l) path = Some (lc, kc) → (rank lc < rank l')%nat.
Proof.
  induction path as [|key rest IH]; intros l l' k' lc kc Hin Hch;
    [by apply elem_of_nil in Hin|].
  cbn [changed links] in *. destruct (unsafe_key key); [done|].
  destruct rest as [|next rest']; [by apply elem_of_nil in Hin|].
  destruct (isObject (get_prop h (VRef l) key)) eqn:Hobj;
    [|by apply elem_of_nil in Hin].
  apply isObject_ref in Hobj as [l1 Hg]. rewrite Hg in *.
  destruct (get_prop_ref _ _ _ _ Hg) as (o & Ho & Hk & _).
  pose proof (ranked _ _ _ _ Ho Hk) as Hr.
  apply elem_of_cons in Hin as [Heq|Hin].
  - simplify_eq. apply changed_rank in Hch. lia.
  - by eapply IH.
Qed.

Lemma ranked_no_revisit l path : no_revisit h (VRef l) path = true.
Proof.
  unfold no_revisit.
  destruct (changed h (VRef l) path) as [[lc kc]|] eqn:Hch; [|done].
  apply bool_decide_eq_true. intros Hin.
  pose proof (links_rank _ _ _ _ _ _ Hin Hch). lia.
Qed.

End ranked.

(** The copy the reducer takes adds no cycle. *)
Lemma acyclic_with_copy h fv :
  closed h = true → acyclic h → acyclic (with_copy h fv).
Proof.
  intros Hc [rank Hrank]. apply closed_closedP in Hc.
  set (top := S (list_sum (map rank (seq 0 (length h))))).
  assert (Htop : ∀ l, (l < length h)%nat → (rank l < top)%nat).
  { intros l Hl. unfold top.
    assert (Hin : rank l ∈ map rank (seq 0 (length h))).
    { apply list_elem_of_fmap. exists l. split; [done|]. apply elem_of_seq. lia. }
    clear -Hin. induction (map rank (seq 0 (length h))) as [|x xs IH];
      [by apply elem_of_nil in Hin|].
    apply elem_of_cons in Hin as [->|Hin]; simpl; [lia|].
    specialize (IH Hin). lia. }
  exists (λ l, if decide (l = length h) then top else rank l).
  intros l o k l' Hl Hk. unfold with_copy in Hl.
  destruct (decide (l < length h)%nat) as [Hlt|Hge].
  - rewrite lookup_alloc_old in Hl by done.
    pose proof (Hc _ _ _ _ Hl Hk) as Hl'.
    rewrite !decide_False by lia. eauto.
  - apply lookup_lt_Some in Hl as Hlen. rewrite length_app in Hlen. simpl in Hlen.
    assert (l = length h) as -> by lia.
    rewrite lookup_alloc_new in Hl. simplify_eq. simpl in Hk.
    assert (Hl' : (l' < length h)%nat).
    { destruct fv as [ | | b | z | s | lf ]; simpl in Hk;
        try by rewrite lookup_empty in Hk.
      - exfalso. revert Hk. generalize 0%N.
        induction (list_ascii_of_string s) as [|c cs IH]; intros i Hk; simpl in Hk;
          [by rewrite lookup_empty in Hk|].
        apply lookup_insert_Some in Hk as [[_ ?]|[_ Hk]]; [done|]. by eapply IH.
      - destruct (h !! lf) as [ofv | ] eqn:Hof; [|by rewrite lookup_empty in Hk].
        eauto. }
    rewrite decide_False by lia. rewrite decide_True by done. by apply Htop.
Qed.

(** In a store without cycles no update comes back to a slot it walked
    through. *)
Lemma acyclic_no_revisit h fv n :
  closed h = true → acyclic h →
  no_revisit (with_copy h fv) (the_copy h) (castPath h n fv) = true.
Proof.
  intros Hc Ha. destruct (acyclic_with_copy h fv Hc Ha) as [rank Hrank].
  by eapply ranked_no_revisit.
Qed.

(** * The claims at concrete inputs *)

(** The path syntax of the documentation. *)
Example stringToPath_examples :
  stringToPath "a.b[0].c" = ["a"; "b"; "0"; "c"]
  ∧ stringToPath "items[0].name" = ["items"; "0"; "name"]
  ∧ stringToPath "a..b" = ["a"; ""; "b"]
  ∧ stringToPath "a['x.y'].z" = ["a"; "x.y"; "z"]
  ∧ stringToPath "[]]" = [].
Proof. by vm_compute. Qed.

(** An index-like key makes [set] create an array. *)
Example set_creates_array :
  (set [Obj KObject ∅] (VRef 0%nat) "items[1].name" (VStr "x")
     ≫= λ '(h, o), mret (h, get h o "items.length", get h o "items[1].name"))
  = Ok ([ Obj KObject (<["items" := VRef 1%nat]> ∅);
          Obj (KArray 2) (<["1" := VRef 2%nat]> ∅);
          Obj KObject (<["name" := VStr "x"]> ∅) ],
        VNum 2, VStr "x").
Proof. by vm_compute. Qed.

(** Scenario: the hook accessor for [age] with default 18 and no validator;
    [onChange(21)], then a new read. *)
Example scenario_default_then_change :
  (p ← useFormBuilderField module_heap (providerValue initialState) "age" (VNum 18) None;
   '(h, s, log) ← run module_heap initialState (onChange p (VNum 21));
   p' ← useFormBuilderField h (providerValue s) "age" (VNum 18) None;
   mret (value p, value p', fieldError p', log))
  = Ok (VNum 18, VNum 21, VUndefined, []).
Proof. by vm_compute. Qed.

(** Scenario: the hook accessor with the validator; [onChange(-5)], then
    [onChange(5)]. *)
Example scenario_validator :
  (p ← useFormBuilderField module_heap (providerValue initialState) "age" (VNum 18)
         (Some must_be_positive);
   '(h1, s1, _) ← run module_heap initialState (onChange p (VNum (-5)));
   p1 ← useFormBuilderField h1 (providerValue s1) "age" (VNum 18) (Some must_be_positive);
   '(h2, s2, _) ← run h1 s1 (onChange p1 (VNum 5));
   p2 ← useFormBuilderField h2 (providerValue s2) "age" (VNum 18) (Some must_be_positive);
   mret (fieldError p1, value p1, fieldError p2, value p2))
  = Ok (VStr "must be positive", VNum (-5), VBool false, VNum 5).
Proof. by vm_compute. Qed.

(** A type the reducer does not know and [Object.prototype] does not have
    either. *)
Example reducer_unknown_RESET :
  reducer module_heap initialState (Action "RESET" ∅)
  = Ok (module_heap, initialState,
        [Diagnostic "ACTION [RESET] NOT FOUND IN actionsMap"
                    ["ON_STATE_CHANGE"; "ON_ERRORS_CHANGE"; "ON_FIELD_VALUE_CHANGE"]]).
Proof. by vm_compute. Qed.

(** C3, where the code departs from it.  Only the first level of
    [fieldsValues] is copied before [set] runs, so the nested object [a] of
    the state passed in is written in place: after the call the input state
    itself resolves [a.b] to 2. *)
Theorem reducer_mutates_previous_state :
  wf_state store_ab state_ab = true
  ∧ get store_ab (get_prop store_ab state_ab "fieldsValues") "a.b" = VNum 1
  ∧ match reducer store_ab state_ab (field_change "a.b" (VNum 2)) with
    | Ok (h', s', _) =>
        get h' (get_prop h' state_ab "fieldsValues") "a.b" = VNum 2
        ∧ store_ab !! 6%nat = Some (Obj KObject (<["b" := VNum 1]> ∅))
        ∧ h' !! 6%nat = Some (Obj KObject (<["b" := VNum 2]> ∅))
    | Throw _ => False
    end.
Proof. vm_compute. repeat split. Qed.

(** C8 fails as stated: for the field [age] with nothing stored, the
    render-prop accessor gives [undefined] and the hook gives its default
    18; with a validator the hook's [onChange] dispatches an error update
    the render-prop's does not. *)
Lemma accessors_differ :
  match FormBuilderField module_heap (providerValue initialState) "age",
        useFormBuilderField module_heap (providerValue initialState) "age" (VNum 18)
          (Some must_be_positive) with
  | Ok p1, Ok p2 =>
      value p1 = VUndefined ∧ value p2 = VNum 18
      ∧ onChange p1 (VNum (-5)) = [field_change "age" (VNum (-5))]
      ∧ onChange p2 (VNum (-5))
        = [errors_change "age" (VStr "must be positive"); field_change "age" (VNum (-5))]
  | _, _ => False
  end.
Proof. by vm_compute. Qed.

(** C7 for a loader that resolves after 10 ms: at 3009 ms the form is
    still loading. *)
Lemma loading_lasts_three_seconds_witness :
  ∃ h' s',
    state_at module_heap initialState
      (host 10 (VRef 6%nat) 0 0 (loadInitialData true)) 3009
    = Ok (h', s', [])
    ∧ get_prop h' s' "loadingInitialData" = VBool true.
Proof.
  destruct (loading_lasts_three_seconds 10 (VRef 6%nat) 0 0) as (_ & _ & Hbefore & _).
  apply (Hbefore module_heap 2%nat 3009%N); vm_compute; congruence.
Defined.

(** * Further properties of the reducer, the submit handler and the accessors *)

Import Edits Loading Ordinary.

(** * The state patch *)

Lemma spread_new h props :
  spread (h ++ [Obj KObject props]) (VRef (length h)) = props.
Proof. unfold spread. by rewrite lookup_alloc_new. Qed.

Lemma spread_at (h : heap) l props :
  h !! l = Some (Obj KObject props) → spread h (VRef l) = props.
Proof. intros Hl. unfold spread. by rewrite Hl. Qed.

Lemma is_plain_at (h : heap) l props :
  h !! l = Some (Obj KObject props) → is_plain h (VRef l) = true.
Proof. intros Hl. unfold is_plain. by rewrite Hl. Qed.

Lemma reducer_state_change_any h state patch :
  reducer h state (Action ON_STATE_CHANGE patch)
  = Ok (h ++ [Obj KObject (patch ∪ spread h (or_initial state))], VRef (length h), []).
Proof. by destruct state. Qed.

(** X1.  [ON_STATE_CHANGE] always returns, whatever the state is (an
    object, [null], a primitive; [initialState] stands in for
    [undefined]), and logs nothing.  The result is a new plain object: every
    key of the payload has the payload's value, every other key is copied
    from the state, and every object of the store is as it was. *)
Theorem state_change_merges h state patch :
  ∃ h' s',
    reducer h state (Action ON_STATE_CHANGE patch) = Ok (h', s', [])
    ∧ (∀ l o, h !! l = Some o → h' !! l = Some o)
    ∧ is_plain h' s' = true
    ∧ (∀ k v, patch !! k = Some v → spread h' s' !! k = Some v)
    ∧ (∀ k, patch !! k = None → spread h' s' !! k = spread h (or_initial state) !! k).
Proof.
  rewrite reducer_state_change_any. eexists _, _. split; [done|].
  split. { intros l o Hl. by apply lookup_app_Some_l. }
  split. { eapply is_plain_at, lookup_alloc_new. }
  rewrite spread_new. split.
  - intros k v Hk. by apply lookup_union_Some_l.
  - intros k Hk. by apply lookup_union_r.
Qed.

(** X2.  Two patches in a row give a state with the same properties as the
    single patch made of the second laid over the first; in particular a
    patch applied twice gives what it gives applied once. *)
Theorem state_change_composes h state p1 p2 :
  ∃ h1 s1 h2 s2 h12 s12 h11 s11,
    reducer h state (Action ON_STATE_CHANGE p1) = Ok (h1, s1, [])
    ∧ reducer h1 s1 (Action ON_STATE_CHANGE p2) = Ok (h2, s2, [])
    ∧ reducer h state (Action ON_STATE_CHANGE (p2 ∪ p1)) = Ok (h12, s12, [])
    ∧ spread h2 s2 = spread h12 s12
    ∧ reducer h1 s1 (Action ON_STATE_CHANGE p1) = Ok (h11, s11, [])
    ∧ spread h11 s11 = spread h1 s1.
Proof.
  rewrite !reducer_state_change_any. eexists _, _, _, _, _, _, _, _.
  split; [done|]. rewrite !reducer_state_change_any.
  split; [done|]. split; [done|].
  cbn [or_initial]. rewrite !spread_new.
  split; [by rewrite (assoc_L (∪))|]. split; [done|].
  by rewrite (assoc_L (∪)), (idemp (∪) p1).
Qed.

(** * Names that are a single key *)

Lemma reducer_field_change_any h state n v :
  reducer h state (field_change n v) =
    ('(h', s') ← on_field_value_change h (or_initial state) (name_value n v);
     mret (h', s', [])).
Proof. by destruct state. Qed.

Lemma on_field_value_change_eq h s n v :
  is_nullish s = false →
  on_field_value_change h s (name_value n v) =
    ('(h2, written) ← set (with_copy h (get_prop h s "fieldsValues")) (the_copy h) n v;
     mret ((h2 ++ [Obj KObject (spread h2 written
                                 ∪ spread h (get_prop h s "fieldsValues"))])
             ++ [Obj KObject (<["fieldsValues" := VRef (length h2)]> (spread h s))],
           VRef (S (length h2)))).
Proof.
  intros Hs. unfold on_field_value_change, member, with_copy, the_copy. rewrite Hs.
  cbn [mbind result_bind alloc]. rewrite !field_name_value. simpl String.eqb.
  cbn [to_property_key mbind result_bind].
  destruct (set _ _ _ _) as [[h2 written]|e]; [|done].
  cbn [mbind result_bind mret result_ret alloc].
  rewrite length_app. simpl. by rewrite Nat.add_1_r.
Qed.

(** [set] on the fresh copy, for a name that is a single key. *)
Lemma set_copy_key h props n v :
  unsafe_key n = false →
  ∃ h2, baseSet_loop (h ++ [Obj KObject props]) (VRef (length h)) [n] v = Ok h2
    ∧ length h2 = S (length h)
    ∧ h2 !! length h = Some (Obj KObject (<[n := v]> props))
    ∧ (∀ l o, h !! l = Some o → h2 !! l = Some o).
Proof.
  intros Hsafe. cbn [baseSet_loop is_nullish]. unfold toKey. rewrite Hsafe.
  cbn [mbind result_bind mret result_ret].
  destruct (assignValue_spec (h ++ [Obj KObject props]) (length h) (Obj KObject props) n v)
    as (h2 & o' & Hassign & Hlen & Ho' & Hp & Ha & Hother).
  { apply lookup_alloc_new. } { done. }
  rewrite Hassign. cbn [mbind result_bind]. exists h2. split; [done|].
  split. { rewrite Hlen, length_app. simpl. lia. }
  split. { rewrite Ho'. f_equal. rewrite (plain_eta o') by done. by rewrite Hp. }
  intros l o Hl. apply lookup_lt_Some in Hl as Hlt.
  rewrite Hother by lia. by apply lookup_app_Some_l.
Qed.

Lemma insert_union_absorb (n : string) (v : val) (m : gmap string val) :
  <[n := v]> m ∪ m = <[n := v]> m.
Proof.
  apply union_absorb. intros k Hk. apply lookup_insert_None in Hk. by destruct Hk.
Qed.

(** The reducer's field update for a name that is a single key. *)
Lemma field_change_key h s n v :
  is_nullish s = false →
  isKey (with_copy h (get_prop h s "fieldsValues")) n (the_copy h) = true →
  unsafe_key n = false →
  ∃ h',
    on_field_value_change h s (name_value n v) = Ok (h', VRef (S (S (length h))))
    ∧ length h' = S (S (S (length h)))
    ∧ (∀ l o, h !! l = Some o → h' !! l = Some o)
    ∧ h' !! S (length h)
      = Some (Obj KObject (<[n := v]> (spread h (get_prop h s "fieldsValues"))))
    ∧ h' !! S (S (length h))
      = Some (Obj KObject (<["fieldsValues" := VRef (S (length h))]> (spread h s))).
Proof.
  intros Hs Hkey Hsafe. rewrite on_field_value_change_eq by done.
  unfold set, baseSet, the_copy. cbn [is_nullish isObject negb].
  unfold castPath. unfold the_copy in Hkey. rewrite Hkey. unfold with_copy.
  set (fv := get_prop h s "fieldsValues").
  destruct (set_copy_key h (spread h fv) n v Hsafe) as (h2 & -> & Hlen & Hcopy & Hext).
  cbn [mbind result_bind mret result_ret]. rewrite Hlen.
  rewrite (spread_at _ _ _ Hcopy), insert_union_absorb.
  eexists. split; [done|].
  split. { rewrite !length_app. simpl. lia. }
  split. { intros l o Hl. by do 2 apply lookup_app_Some_l, Hext || apply lookup_app_Some_l. }
  split.
  - apply lookup_app_Some_l. rewrite <- Hlen. apply lookup_alloc_new.
  - replace (S (S (length h))) with (length (h2 ++ [Obj KObject (<[n:=v]> (spread h fv))])).
    + apply lookup_alloc_new.
    + rewrite length_app. simpl. lia.
Qed.

(** X3.  For a name that lodash takes as a single key (and does not
    refuse), [ON_FIELD_VALUE_CHANGE] returns whatever [fieldsValues] is, an
    object, an array, a string, [null] or nothing at all: the new
    [fieldsValues] is a plain object holding the own properties of the old
    one with the name set to the value, the other fields of the state are
    copied, nothing is logged, and every object of the store is as it
    was. *)
Theorem flat_field_change_inserts h state n v :
  state ≠ VNull →
  isKey (with_copy h (get_prop h (or_initial state) "fieldsValues")) n (the_copy h) = true →
  unsafe_key n = false →
  ∃ h' s',
    reducer h state (field_change n v) = Ok (h', s', [])
    ∧ (∀ l o, h !! l = Some o → h' !! l = Some o)
    ∧ is_plain h' s' = true
    ∧ is_plain h' (get_prop h' s' "fieldsValues") = true
    ∧ spread h' (get_prop h' s' "fieldsValues")
      = <[n := v]> (spread h (get_prop h (or_initial state) "fieldsValues"))
    ∧ (∀ k, k ≠ "fieldsValues" → spread h' s' !! k = spread h (or_initial state) !! k).
Proof.
  intros Hnull Hkey Hsafe. rewrite reducer_field_change_any.
  assert (Hs : is_nullish (or_initial state) = false) by by destruct state.
  destruct (field_change_key h (or_initial state) n v Hs Hkey Hsafe)
    as (h' & -> & Hlen & Hext & Hfv & Hst).
  cbn [mbind result_bind mret result_ret]. eexists _, _. split; [done|].
  split; [done|].
  assert (Hget : get_prop h' (VRef (S (S (length h)))) "fieldsValues" = VRef (S (length h))).
  { rewrite (get_prop_new _ _ _ _ Hst). by rewrite lookup_insert_eq. }
  rewrite Hget, (spread_at _ _ _ Hfv), (spread_at _ _ _ Hst).
  rewrite (is_plain_at _ _ _ Hfv), (is_plain_at _ _ _ Hst).
  repeat split. intros k Hk. by rewrite lookup_insert_ne.
Qed.

Lemma flat_field_change_inserts_witness :
  ∃ h' s',
    reducer module_heap VUndefined (field_change "age" (VNum 21)) = Ok (h', s', [])
    ∧ spread h' (get_prop h' s' "fieldsValues") = <["age" := VNum 21]> ∅.
Proof.
  destruct (flat_field_change_inserts module_heap VUndefined "age" (VNum 21))
    as (h' & s' & Hred & _ & _ & _ & Hfv & _); [done|by vm_compute|by vm_compute|].
  exists h', s'. split; [done|]. rewrite Hfv. by vm_compute.
Defined.

(** * Sequences of edits *)

Lemma closed_anchored h s :
  closed h = true → val_ok (length h) s = true → isObject s = true → anchored h s.
Proof.
  intros Hc Hs Hobj. apply closed_closedP in Hc.
  apply isObject_ref in Hobj as [ls ->]. simpl in Hs. apply Nat.ltb_lt in Hs.
  exists ls. split; [done|]. split; [done|].
  split; apply get_prop_ok; try done; simpl; by apply Nat.ltb_lt.
Qed.

Lemma spread_ext (h h' : heap) x :
  val_ok (length h) x = true → (∀ l o, h !! l = Some o → h' !! l = Some o) →
  spread h' x = spread h x.
Proof.
  intros Hx Hext. destruct x as [| | | | |l]; try done. simpl in Hx.
  apply Nat.ltb_lt in Hx. destruct (lookup_lt_is_Some_2 h l Hx) as [o Ho].
  unfold spread. by rewrite Ho, (Hext _ _ Ho).
Qed.

Lemma val_ok_ext (h h' : heap) x :
  val_ok (length h) x = true → (∀ l o, h !! l = Some o → h' !! l = Some o) →
  val_ok (length h') x = true.
Proof.
  intros Hx Hext. destruct x as [| | | | |l]; try done. simpl in *.
  apply Nat.ltb_lt in Hx. apply Nat.ltb_lt.
  destruct (lookup_lt_is_Some_2 h l Hx) as [o Ho]. eapply lookup_lt_Some. eauto.
Qed.

Lemma is_plain_ext (h h' : heap) x :
  is_plain h x = true → (∀ l o, h !! l = Some o → h' !! l = Some o) →
  is_plain h' x = true.
Proof.
  intros Hp Hext. apply is_plain_inv in Hp as (l & o & -> & Ho & Ha).
  unfold is_plain. by rewrite (Hext _ _ Ho), Ha.
Qed.

Lemma flat_name_isKey h n x : flat_name n = true → isKey h n x = true ∧ unsafe_key n = false.
Proof.
  unfold flat_name, isKey. intros Hf. apply andb_true_iff in Hf as [Hk Hs].
  rewrite Hk. split; [done|]. by apply negb_true_iff.
Qed.

(** One edit, as the reducer performs it. *)
Lemma edit_step h s e :
  anchored h s → flat_edit e = true →
  ∃ h' s',
    reducer h s (edit_action e) = Ok (h', s', [])
    ∧ anchored h' s'
    ∧ (∀ l o, h !! l = Some o → h' !! l = Some o)
    ∧ (spread h' (get_prop h' s' "fieldsValues"), spread h' (get_prop h' s' "errors"))
      = apply_edit (spread h (get_prop h s "fieldsValues"),
                    spread h (get_prop h s "errors")) e
    ∧ (∀ k, k ≠ "fieldsValues" → k ≠ "errors" → spread h' s' !! k = spread h s !! k)
    ∧ (is_plain h (get_prop h s "fieldsValues") = true →
       is_plain h' (get_prop h' s' "fieldsValues") = true)
    ∧ (is_plain h (get_prop h s "errors") = true →
       is_plain h' (get_prop h' s' "errors") = true).
Proof.
  intros (ls & -> & Hls & Hfv & Herr) Hflat.
  destruct e as [n v|n v]; cbn [edit_action apply_edit fst snd].
  - rewrite reducer_errors_change, on_errors_change_run. cbn [mbind result_bind].
    set (errs := get_prop h (VRef ls) "errors") in *.
    set (h1 := h ++ [Obj KObject (<[n:=v]> (spread h errs))]).
    set (h2 := h1 ++ [Obj KObject (<["errors":=VRef (length h)]> (spread h (VRef ls)))]).
    assert (Hlen1 : length h1 = S (length h)).
    { unfold h1. rewrite length_app. simpl. lia. }
    assert (Hlen2 : length h2 = S (S (length h))).
    { unfold h2. rewrite length_app. simpl. lia. }
    assert (He1 : h2 !! length h = Some (Obj KObject (<[n:=v]> (spread h errs)))).
    { unfold h2. apply lookup_app_Some_l. unfold h1. apply lookup_alloc_new. }
    assert (Hs1 : h2 !! S (length h)
                  = Some (Obj KObject (<["errors":=VRef (length h)]> (spread h (VRef ls))))).
    { unfold h2. rewrite <- Hlen1. apply lookup_alloc_new. }
    assert (Hext : ∀ l o, h !! l = Some o → h2 !! l = Some o).
    { intros l o Hl. unfold h2, h1. by do 2 apply lookup_app_Some_l. }
    assert (Herr1 : get_prop h2 (VRef (S (length h))) "errors" = VRef (length h)).
    { rewrite (get_prop_new _ _ _ _ Hs1). by rewrite lookup_insert_eq. }
    assert (Hfv1 : get_prop h2 (VRef (S (length h))) "fieldsValues"
                   = get_prop h (VRef ls) "fieldsValues").
    { rewrite (get_prop_new _ _ _ _ Hs1), lookup_insert_ne by done.
      by rewrite get_prop_spread. }
    exists h2, (VRef (S (length h))). split; [done|].
    split.
    { exists (S (length h)). split; [done|]. split; [lia|].
      rewrite Hfv1, Herr1. split; [by eapply val_ok_ext|].
      simpl. apply Nat.ltb_lt. lia. }
    split; [done|]. rewrite Hfv1, Herr1.
    split. { by rewrite (spread_at _ _ _ He1), (spread_ext h h2). }
    split. { intros k Hk1 Hk2. by rewrite (spread_at _ _ _ Hs1), lookup_insert_ne. }
    split; [intros Hp; by eapply is_plain_ext|]. intros _. by eapply is_plain_at.
  - cbn [flat_edit] in Hflat.
    destruct (flat_name_isKey (with_copy h (get_prop h (VRef ls) "fieldsValues")) n
                (the_copy h) Hflat) as [Hkey Hsafe].
    rewrite reducer_field_change.
    destruct (field_change_key h (VRef ls) n v eq_refl Hkey Hsafe)
      as (h' & -> & Hlen & Hext & Hfv1 & Hst).
    cbn [mbind result_bind mret result_ret]. exists h', (VRef (S (S (length h)))).
    split; [done|].
    assert (Hget : get_prop h' (VRef (S (S (length h)))) "fieldsValues"
                   = VRef (S (length h))).
    { rewrite (get_prop_new _ _ _ _ Hst). by rewrite lookup_insert_eq. }
    assert (Herr1 : get_prop h' (VRef (S (S (length h)))) "errors"
                    = get_prop h (VRef ls) "errors").
    { rewrite (get_prop_new _ _ _ _ Hst), lookup_insert_ne by done.
      by rewrite get_prop_spread. }
    split.
    { exists (S (S (length h))). split; [done|]. split; [lia|].
      rewrite Hget, Herr1. split; [simpl; apply Nat.ltb_lt; lia|by eapply val_ok_ext]. }
    split; [done|]. rewrite Hget, Herr1.
    split. { by rewrite (spread_at _ _ _ Hfv1), (spread_ext h h'). }
    split. { intros k Hk1 Hk2. by rewrite (spread_at _ _ _ Hst), lookup_insert_ne. }
    split; [intros _; by eapply is_plain_at|]. intros Hp. by eapply is_plain_ext.
Qed.

Lemma edits_run edits : ∀ h s,
  anchored h s → forallb flat_edit edits = true →
  ∃ h' s',
    run h s (map edit_action edits) = Ok (h', s', [])
    ∧ (∀ l o, h !! l = Some o → h' !! l = Some o)
    ∧ (spread h' (get_prop h' s' "fieldsValues"), spread h' (get_prop h' s' "errors"))
      = foldl apply_edit (spread h (get_prop h s "fieldsValues"),
                          spread h (get_prop h s "errors")) edits
    ∧ (∀ k, k ≠ "fieldsValues" → k ≠ "errors" → spread h' s' !! k = spread h s !! k)
    ∧ anchored h' s'
    ∧ (is_plain h (get_prop h s "fieldsValues") = true →
       is_plain h' (get_prop h' s' "fieldsValues") = true)
    ∧ (is_plain h (get_prop h s "errors") = true →
       is_plain h' (get_prop h' s' "errors") = true).
Proof.
  induction edits as [|e edits IH]; intros h s Hs Hflat.
  { exists h, s. done. }
  cbn [forallb] in Hflat. apply andb_true_iff in Hflat as [He Hflat].
  destruct (edit_step h s e Hs He)
    as (h1 & s1 & Hred & Hs1 & Hext1 & Hmaps1 & Hrest1 & Hpf1 & Hpe1).
  destruct (IH h1 s1 Hs1 Hflat) as (h' & s' & Hrun & Hext & Hmaps & Hrest & Hs' & Hpf & Hpe).
  exists h', s'. cbn [map run]. rewrite Hred. cbn [mbind result_bind].
  rewrite Hrun. cbn [mbind result_bind mret result_ret app].
  split; [done|]. split; [eauto|]. split; [|split; [|split; [done|split; eauto]]].
  - cbn [foldl]. by rewrite <- Hmaps1.
  - intros k Hk1 Hk2. by rewrite Hrest, Hrest1.
Qed.

(** X4.  On names that are single keys the reducer is a pair of finite
    maps.  Given a state object of a store without dangling references,
    every sequence of error updates (under any name) and of field updates
    (under names lodash takes as one key) is reduced without an error and
    without a diagnostic; the own properties of the resulting
    [fieldsValues] and [errors] are those of the old ones with the edits
    applied in order, so that a later edit of a name replaces an earlier
    one; the other fields of the state are copied and every object of the
    store is as it was. *)
Theorem flat_edits_refine h s edits :
  closed h = true → val_ok (length h) s = true → isObject s = true →
  forallb flat_edit edits = true →
  ∃ h' s',
    run h s (map edit_action edits) = Ok (h', s', [])
    ∧ (∀ l o, h !! l = Some o → h' !! l = Some o)
    ∧ (spread h' (get_prop h' s' "fieldsValues"), spread h' (get_prop h' s' "errors"))
      = foldl apply_edit (spread h (get_prop h s "fieldsValues"),
                          spread h (get_prop h s "errors")) edits
    ∧ (∀ k, k ≠ "fieldsValues" → k ≠ "errors" → spread h' s' !! k = spread h s !! k).
Proof.
  intros Hc Hs Hobj Hflat.
  destruct (edits_run edits h s (closed_anchored h s Hc Hs Hobj) Hflat)
    as (h' & s' & Hrun & Hext & Hmaps & Hrest & _).
  by exists h', s'.
Qed.

Lemma flat_edits_refine_witness :
  ∃ h' s',
    run module_heap initialState
        (map edit_action [SetField "age" (VNum 18); SetError "age" (VStr "too young");
                          SetField "age" (VNum 21); SetError "age" (VBool false)])
    = Ok (h', s', [])
    ∧ spread h' (get_prop h' s' "fieldsValues") = <["age" := VNum 21]> ∅
    ∧ spread h' (get_prop h' s' "errors") = <["age" := VBool false]> ∅.
Proof.
  destruct (flat_edits_refine module_heap initialState
              [SetField "age" (VNum 18); SetError "age" (VStr "too young");
               SetField "age" (VNum 21); SetError "age" (VBool false)])
    as (h' & s' & Hrun & _ & Hmaps & _); [by vm_compute..|].
  exists h', s'. split; [done|].
  injection Hmaps as -> ->. split; by vm_compute.
Defined.

(** * Names that start with a refused key *)

(** X5.  When the first key of the name is one lodash refuses
    ([__proto__], [constructor], [prototype]), [ON_FIELD_VALUE_CHANGE]
    writes nothing: it returns a state whose [fieldsValues] is a new plain
    object with exactly the own properties of the old one, logs nothing and
    leaves every object of the store as it was.  The value is dropped
    without notice. *)
Theorem refused_field_change_dropped h state n v key rest :
  state ≠ VNull →
  castPath (with_copy h (get_prop h (or_initial state) "fieldsValues")) n (the_copy h)
  = key :: rest →
  unsafe_key key = true →
  ∃ h' s',
    reducer h state (field_change n v) = Ok (h', s', [])
    ∧ (∀ l o, h !! l = Some o → h' !! l = Some o)
    ∧ is_plain h' (get_prop h' s' "fieldsValues") = true
    ∧ spread h' (get_prop h' s' "fieldsValues")
      = spread h (get_prop h (or_initial state) "fieldsValues")
    ∧ (∀ k, k ≠ "fieldsValues" → spread h' s' !! k = spread h (or_initial state) !! k).
Proof.
  intros Hnull Hpath Hunsafe. rewrite reducer_field_change_any.
  assert (Hs : is_nullish (or_initial state) = false) by by destruct state.
  rewrite on_field_value_change_eq by done.
  set (fv := get_prop h (or_initial state) "fieldsValues") in *.
  unfold set, baseSet, with_copy, the_copy in *. cbn [is_nullish isObject negb].
  rewrite Hpath. cbn [baseSet_loop is_nullish]. unfold toKey. rewrite Hunsafe.
  cbn [mbind result_bind mret result_ret].
  rewrite spread_new, (union_absorb (spread h fv) (spread h fv)) by done.
  set (h1 := h ++ [Obj KObject (spread h fv)]).
  set (h2 := h1 ++ [Obj KObject (spread h fv)]).
  set (h3 := h2 ++ [Obj KObject (<["fieldsValues":=VRef (length h1)]>
                                    (spread h (or_initial state)))]).
  assert (Hfv : h3 !! length h1 = Some (Obj KObject (spread h fv))).
  { unfold h3. apply lookup_app_Some_l. apply lookup_alloc_new. }
  assert (Hst : h3 !! S (length h1)
                = Some (Obj KObject (<["fieldsValues":=VRef (length h1)]>
                                       (spread h (or_initial state))))).
  { unfold h3. replace (S (length h1)) with (length h2); [apply lookup_alloc_new|].
    unfold h2. rewrite length_app. simpl. lia. }
  exists h3, (VRef (S (length h1))). split; [done|].
  split. { intros l o Hl. unfold h3, h2, h1. by do 3 apply lookup_app_Some_l. }
  assert (Hget : get_prop h3 (VRef (S (length h1))) "fieldsValues" = VRef (length h1)).
  { rewrite (get_prop_new _ _ _ _ Hst). by rewrite lookup_insert_eq. }
  rewrite Hget, (spread_at _ _ _ Hfv), (spread_at _ _ _ Hst), (is_plain_at _ _ _ Hfv).
  repeat split. intros k Hk. by rewrite lookup_insert_ne.
Qed.

Lemma refused_field_change_dropped_witness :
  ∃ h' s',
    reducer Examples.store_a5 Examples.state_a5
            (field_change "constructor.name" (VStr "x")) = Ok (h', s', [])
    ∧ spread h' (get_prop h' s' "fieldsValues") = <["a" := VNum 5]> ∅.
Proof.
  destruct (refused_field_change_dropped Examples.store_a5 Examples.state_a5
              "constructor.name" (VStr "x") "constructor" ["name"])
    as (h' & s' & Hred & _ & _ & Hfv & _); [done|by vm_compute|by vm_compute|].
  exists h', s'. split; [done|]. rewrite Hfv. by vm_compute.
Defined.

(** * Submission of a flat form *)

Lemma heap_snoc_eq (h h2 : heap) o :
  length h2 = S (length h) → h2 !! length h = Some o →
  (∀ l o0, h !! l = Some o0 → h2 !! l = Some o0) → h2 = h ++ [o].
Proof.
  intros Hlen Hlast Hext. apply list_eq. intros i.
  destruct (decide (i < length h)%nat) as [Hlt|Hge].
  - destruct (lookup_lt_is_Some_2 h i Hlt) as [x Hx].
    by rewrite (Hext _ _ Hx), (lookup_app_Some_l _ _ _ _ Hx).
  - destruct (decide (i = length h)) as [->|Hne].
    + by rewrite Hlast, lookup_alloc_new.
    + rewrite !lookup_ge_None_2; [done| |]; rewrite ?length_app; simpl; lia.
Qed.

Lemma set_flat h props key value :
  flat_name key = true →
  set (h ++ [Obj KObject props]) (VRef (length h)) key value
  = Ok (h ++ [Obj KObject (<[key := value]> props)], VRef (length h)).
Proof.
  intros Hflat.
  destruct (flat_name_isKey (h ++ [Obj KObject props]) key (VRef (length h)) Hflat)
    as [Hkey Hsafe].
  unfold set, baseSet, castPath. cbn [is_nullish isObject negb]. rewrite Hkey.
  destruct (set_copy_key h props key value Hsafe) as (h2 & -> & Hlen & Hcopy & Hext).
  cbn [mbind result_bind mret result_ret]. by rewrite (heap_snoc_eq h h2 _ Hlen Hcopy Hext).
Qed.

Lemma set_entries_flat form : ∀ h props,
  forallb (λ e, flat_name e.1) form = true →
  set_entries (h ++ [Obj KObject props]) (VRef (length h)) form
  = Ok (h ++ [Obj KObject (foldl write_entry props form)]).
Proof.
  induction form as [|[key value] form IH]; intros h props Hflat; [done|].
  cbn [forallb fst] in Hflat. apply andb_true_iff in Hflat as [Hk Hflat].
  cbn [set_entries]. rewrite (set_flat h props key value Hk).
  cbn [mbind result_bind foldl]. by rewrite IH.
Qed.

(** X6.  A form whose field names are single keys is submitted as the
    finite map of its entries: the handler returns, having called
    [onSubmit] once with a new plain object whose own properties are the
    entries written in order, so that of two entries with the same name
    the later one stays; an empty form gives the empty object.  No object
    of the store is changed. *)
Theorem submit_flat_form h form :
  forallb (λ e, flat_name e.1) form = true →
  onSubmit_handler h form
  = Ok (h ++ [Obj KObject (foldl write_entry ∅ form)],
        [Persist; PreventDefault; OnSubmit (VRef (length h))]).
Proof.
  intros Hflat. unfold onSubmit_handler. cbn [alloc].
  by rewrite (set_entries_flat form h ∅ Hflat).
Qed.

Lemma submit_flat_form_witness :
  onSubmit_handler module_heap
    [("name", VStr "Ada"); ("tag", VStr "a"); ("tag", VStr "b")]
  = Ok (module_heap
          ++ [Obj KObject (<["tag" := VStr "b"]> (<["name" := VStr "Ada"]> ∅))],
        [Persist; PreventDefault; OnSubmit (VRef 6%nat)]).
Proof.
  rewrite (submit_flat_form module_heap
             [("name", VStr "Ada"); ("tag", VStr "a"); ("tag", VStr "b")]);
    [|by vm_compute].
  by vm_compute.
Defined.

(** * What a submission leaves alone *)







(** * A loader that does not resolve *)

Lemma host_settling_resolved p : ∀ resolved_at loaded late now,
  host_settling (Resolved resolved_at loaded) late now p
  = host resolved_at loaded late now p.
Proof.
  induction p as [|a next IH|next IH|callback IHc ms next IHn];
    intros resolved_at loaded late now; cbn [host_settling host].
  - done.
  - by rewrite IH.
  - apply IH.
  - by rewrite IHn, IHc.
Qed.

(** X8.  When the promise of [initialFieldValuesLoader] is rejected, or
    never settles, [loadInitialData] has dispatched
    [{loadingInitialData: true}] and dispatches nothing more: no timer is
    set, and at every later time the state has [loadingInitialData] true
    and the [fieldsValues] it had, so the form stays on the loading
    placeholder.  For a promise that resolves, the host agrees with the one
    of the loading theorem. *)
Theorem loading_stuck_without_resolution outcome late now :
  resolves outcome = false →
  host_settling outcome late now (loadInitialData true) = [(now, loading_on)]
  ∧ (∀ h state t, (now ≤ t)%N →
       ∃ h' s',
         state_at h state (host_settling outcome late now (loadInitialData true)) t
         = Ok (h', s', [])
         ∧ get_prop h' s' "loadingInitialData" = VBool true
         ∧ spread h' s' !! "fieldsValues" = spread h (or_initial state) !! "fieldsValues"
         ∧ (∀ l o, h !! l = Some o → h' !! l = Some o))
  ∧ (∀ resolved_at loaded p,
       host_settling (Resolved resolved_at loaded) late now p
       = host resolved_at loaded late now p).
Proof.
  intros Hout.
  assert (Hline : host_settling outcome late now (loadInitialData true)
                  = [(now, loading_on)]).
  { destruct outcome; done. }
  split; [done|]. split; [|intros; apply host_settling_resolved].
  intros h state t Ht. rewrite Hline. unfold state_at.
  cbn [filter list_filter fst]. rewrite decide_True by done.
  cbn [filter list_filter map snd run]. unfold loading_on.
  rewrite reducer_state_change_any. cbn [mbind result_bind mret result_ret app].
  eexists _, _. split; [done|].
  rewrite (get_prop_new _ (length h) _ _ (lookup_alloc_new _ _)), spread_new.
  split; [by rewrite (lookup_union_Some_l _ _ _ (VBool true))|].
  split; [|intros l o Hl; by apply lookup_app_Some_l].
  by rewrite lookup_union_r.
Qed.

Lemma loading_stuck_without_resolution_witness :
  ∃ h' s',
    state_at module_heap initialState
      (host_settling (Rejected 40) 0 0 (loadInitialData true)) 86400000
    = Ok (h', s', [])
    ∧ get_prop h' s' "loadingInitialData" = VBool true.
Proof.
  destruct (loading_stuck_without_resolution (Rejected 40) 0 0 eq_refl)
    as (_ & Hstate & _).
  destruct (Hstate module_heap initialState 86400000%N) as (h' & s' & Hrun & Hload & _);
    [done|].
  by exists h', s'.
Defined.

(** * The accessors and the shape of the state *)

Lemma accessors_throw_without_errors h ctx fieldName d validator :
  is_nullish (state ctx) = true ∨ is_nullish (get_prop h (state ctx) "errors") = true →
  FormBuilderField h ctx fieldName = Throw TypeError
  ∧ useFormBuilderField h ctx fieldName d validator = Throw TypeError.
Proof.
  unfold FormBuilderField, useFormBuilderField, member.
  destruct (is_nullish (state ctx)) eqn:Hs; [done|].
  cbn [mbind result_bind].
  destruct (is_nullish (get_prop h (state ctx) "errors")) eqn:Herr; [done|].
  by intros [?|?].
Qed.





(** X11.  Writing through an accessor and reading back.  In a
    [FormBuilder], on a form state and under the conditions of the field
    update on the path (no key before the last naming a member of a
    built-in prototype), the [onChange] of the render-prop accessor is
    reduced to a state in which the render-prop accessor gives the value
    written, and the hook accessor gives it when it is truthy and its
    default otherwise: a [0], an empty string or a [false] that was just
    written is read back by the hook as the default. *)
Theorem accessor_round_trip h s fieldName d v :
  wf_state h s = true → val_ok (length h) v = true →
  update_ok h (get_prop h s "fieldsValues") fieldName = true →
  castPath h fieldName (get_prop h s "fieldsValues") ≠ [] →
  safe_path (castPath h fieldName (get_prop h s "fieldsValues")) = true →
  ordinary_walk (castPath h fieldName (get_prop h s "fieldsValues")) = true →
  ∃ p h' s' p1 p2,
    FormBuilderField h (providerValue s) fieldName = Ok p
    ∧ run h s (onChange p v) = Ok (h', s', [])
    ∧ FormBuilderField h' (providerValue s') fieldName = Ok p1
    ∧ value p1 = v
    ∧ useFormBuilderField h' (providerValue s') fieldName d None = Ok p2
    ∧ value p2 = (if truthy v then v else d)
    ∧ onChange p2 = onChange p1.
Proof.
  intros Hwf Hv Hok Hne Hsafe _.
  destruct (field_update_get h s fieldName v Hwf Hv Hok Hne Hsafe)
    as (h' & s' & Hred & Hwf' & Hget & _).
  assert (Hacc : ∀ h0 s0, wf_state h0 s0 = true →
            ∃ p1 p2,
              FormBuilderField h0 (providerValue s0) fieldName = Ok p1
              ∧ useFormBuilderField h0 (providerValue s0) fieldName d None = Ok p2
              ∧ value p1 = get h0 (get_prop h0 s0 "fieldsValues") fieldName
              ∧ value p2 = (if truthy (value p1) then value p1 else d)
              ∧ onChange p1 = (λ w, [field_change fieldName w])
              ∧ onChange p2 = onChange p1).
  { intros h0 s0 Hwf0.
    destruct (wf_state_inv h0 _ Hwf0)
      as (_ & ls & so & lfv & ofv & le & oe & -> & _ & _ & _ & _ & He & _).
    unfold FormBuilderField, useFormBuilderField, member.
    cbn [state providerValue is_nullish mbind result_bind]. rewrite He.
    cbn [is_nullish mbind result_bind mret result_ret].
    eexists _, _. by repeat split. }
  destruct (Hacc h s Hwf) as (p & _ & Hp & _ & _ & _ & Hon & _).
  destruct (Hacc h' s' Hwf') as (p1 & p2 & Hp1 & Hp2 & Hv1 & Hv2 & _ & Hon2).
  exists p, h', s', p1, p2. split; [done|].
  split. { rewrite Hon. cbn [run]. rewrite Hred. by cbn [mbind result_bind]. }
  split; [done|]. rewrite Hv2, Hv1, Hget. done.
Qed.

Lemma accessor_round_trip_witness :
  ∃ p h' s' p2,
    FormBuilderField module_heap (providerValue initialState) "count" = Ok p
    ∧ run module_heap initialState (onChange p (VNum 0)) = Ok (h', s', [])
    ∧ useFormBuilderField h' (providerValue s') "count" (VNum 18) None = Ok p2
    ∧ value p2 = VNum 18.
Proof.
  destruct (accessor_round_trip module_heap initialState "count" (VNum 18) (VNum 0))
    as (p & h' & s' & p1 & p2 & Hp & Hrun & _ & _ & Hp2 & Hv2 & _);
    [by vm_compute..|].
  by exists p, h', s', p2.
Defined.

(** * Writing the length of an array *)

Lemma get_prop_primitive h x k : isObject x = false → isObject (get_prop h x k) = false.
Proof.
  destruct x as [| |b|z|s|l]; try done. intros _. unfold get_prop, str_get.
  destruct (String.eqb k "length"); [done|].
  destruct (array_index k); [|done]. by destruct (String.get _ s).
Qed.

(** A walk that starts at a primitive never reaches an object. *)
Lemma baseGet_loop_primitive path : ∀ h x l,
  path ≠ [] → baseGet_loop h x path = Some (VRef l) → isObject x = true.
Proof.
  induction path as [|key rest IH]; intros h x l Hne Hget; [done|].
  cbn [baseGet_loop] in Hget. unfold toKey in Hget.
  destruct (is_nullish x); [done|].
  destruct (isObject x) eqn:Hx; [done|].
  pose proof (get_prop_primitive h x key Hx) as Hprim.
  destruct rest as [|next rest'].
  - cbn in Hget. injection Hget as Hget. by rewrite Hget in Hprim.
  - apply IH in Hget; [|done]. by rewrite Hget in Hprim.
Qed.

(** [baseSet] along objects that are there, down to the [length] of an
    array: nothing is written on the way, and the last assignment is the
    one of the language. *)
Lemma baseSet_loop_length pre : ∀ h l0 l arr v e,
  baseGet_loop h (VRef l0) pre = Some (VRef l) → safe_path pre = true →
  h !! l = Some arr → is_array arr = true →
  obj_get arr "length" ≠ v → array_set_length arr v = Throw e →
  baseSet_loop h (VRef l0) (pre ++ ["length"]) v = Throw e.
Proof.
  induction pre as [|key rest IH]; intros h l0 l arr v e Hget Hsafe Harr Hisarr Hne Hthrow.
  - cbn in Hget. injection Hget as ->.
    cbn [app baseSet_loop is_nullish]. unfold toKey.
    replace (unsafe_key "length") with false by done.
    cbn [mbind result_bind mret result_ret].
    unfold assignValue, own_in, key_in, get_prop, lodash_eq. rewrite Harr.
    rewrite (bool_decide_eq_false_2 _ Hne), andb_false_r. cbn [negb orb].
    unfold baseAssignValue. rewrite Harr. unfold obj_set.
    unfold is_array in Hisarr. destruct (okind arr) as [|len]; [done|].
    cbn [String.eqb]. replace (String.eqb "length" "length") with true by done.
    by rewrite Hthrow.
  - cbn [safe_path forallb] in Hsafe. apply andb_true_iff in Hsafe as [Hkey Hsafe].
    apply negb_true_iff in Hkey.
    cbn [baseGet_loop is_nullish] in Hget. unfold toKey in Hget.
    assert (∃ l1, get_prop h (VRef l0) key = VRef l1) as [l1 Hl1].
    { destruct rest as [|next rest'].
      - cbn in Hget. injection Hget as Hget. eauto.
      - apply isObject_ref. eapply baseGet_loop_primitive; [|exact Hget]. done. }
    rewrite Hl1 in Hget.
    destruct (get_prop_ref _ _ _ _ Hl1) as (o & Ho & Hk & Hw).
    specialize (IH h l1 l arr v e Hget Hsafe Harr Hisarr Hne Hthrow).
    cbn [app baseSet_loop is_nullish]. unfold toKey. rewrite Hkey.
    destruct (rest ++ ["length"]) as [|next rest'] eqn:Hrest.
    { by destruct rest. }
    rewrite Hl1. cbn [isObject mbind result_bind mret result_ret].
    rewrite (assignValue_noop h l0 o key (VRef l1)); try done.
    + cbn [mbind result_bind]. by rewrite Hl1.
    + apply has_own_props. by rewrite Hk.
    + rewrite obj_get_props by done. by rewrite Hk.
Qed.

Lemma baseGet_loop_copy h lfv ofv pre :
  closedP h → h !! lfv = Some ofv → is_array ofv = false → pre ≠ [] →
  baseGet_loop (with_copy h (VRef lfv)) (the_copy h) pre = baseGet_loop h (VRef lfv) pre.
Proof.
  intros Hc Ho Ha Hne. destruct pre as [|key rest]; [done|].
  unfold the_copy. cbn [baseGet_loop is_nullish]. unfold toKey.
  assert (Hfirst : get_prop (with_copy h (VRef lfv)) (VRef (length h)) key
                   = get_prop h (VRef lfv) key).
  { unfold with_copy. rewrite (get_prop_new _ _ _ _ (lookup_alloc_new _ _)).
    cbn [spread]. rewrite Ho. by rewrite (get_prop_plain h lfv ofv). }
  rewrite Hfirst. apply baseGet_loop_ext; [done|by apply get_prop_ok|].
  intros l o Hl. by apply lookup_app_Some_l.
Qed.

(** X12.  The reducer throws where the language refuses a length.  On a
    form state, when the name ends in the key [length], the keys before it
    lead to an array, and the value is one an array cannot take as its
    length (it is not the length the array has, and the assignment throws
    a [RangeError]: for instance [undefined], a negative number or a word),
    [ON_FIELD_VALUE_CHANGE] throws that [RangeError] and returns no
    state. *)
Theorem field_change_throws_on_array_length h s n v pre l arr :
  wf_state h s = true →
  castPath h n (get_prop h s "fieldsValues") = pre ++ ["length"] →
  safe_path pre = true →
  baseGet_path h (get_prop h s "fieldsValues") pre = VRef l →
  h !! l = Some arr → is_array arr = true →
  obj_get arr "length" ≠ v → array_set_length arr v = Throw RangeError →
  reducer h s (field_change n v) = Throw RangeError.
Proof.
  intros Hwf Hpath Hsafe Hget Harr Hisarr Hne Hthrow.
  destruct (wf_state_inv h s Hwf)
    as (Hc & ls & so & lfv & ofv & le & oe & -> & Hso & Hfv & Hofv & Hafv & _).
  rewrite Hfv in *.
  assert (Hpre : pre ≠ []) by (intros ->; done).
  assert (Hwalk : baseGet_loop (with_copy h (VRef lfv)) (the_copy h) pre = Some (VRef l)).
  { rewrite (baseGet_loop_copy h lfv ofv pre) by done.
    unfold baseGet_path in Hget. destruct pre as [|key rest]; [done|].
    destruct (baseGet_loop h (VRef lfv) (key :: rest)) as [x|]; [|done].
    simpl in Hget. by subst. }
  rewrite reducer_field_change.
  rewrite (on_field_value_change_run h ls so lfv ofv n v) by done.
  rewrite (castPath_copy h lfv ofv n) by done. rewrite Hpath.
  unfold the_copy in *.
  rewrite (baseSet_loop_length pre _ (length h) l arr v RangeError); try done.
  unfold with_copy. by apply lookup_app_Some_l.
Qed.

Lemma field_change_throws_on_array_length_witness :
  reducer Examples2.store_items Examples2.state_items
          (field_change "items.length" (VStr "many")) = Throw RangeError.
Proof.
  apply (field_change_throws_on_array_length Examples2.store_items Examples2.state_items
           "items.length" (VStr "many") ["items"] 6%nat
           (Obj (KArray 1) (<["0" := VStr "x"]> ∅))); by vm_compute.
Defined.

(** * The two spellings of a nested name *)

Lemma list_ascii_of_string_app a b :
  list_ascii_of_string (a +:+ b) = list_ascii_of_string a ++ list_ascii_of_string b.
Proof. induction a as [|c a IH]; [done|]. simpl. f_equal. exact IH. Qed.

Lemma span_stop p ws rest :
  forallb p ws = true →
  match rest with [] => True | c :: _ => p c = false end →
  span p (ws ++ rest) = (ws, rest).
Proof.
  intros Hws Hrest. induction ws as [|c ws IH].
  - destruct rest as [|c r]; [done|]. cbn [app span]. by rewrite Hrest.
  - cbn [forallb] in Hws. apply andb_true_iff in Hws as [Hc Hws].
    cbn [app span]. by rewrite Hc, IH.
Qed.

Lemma scan_skip pre rest : scan (length pre) (pre ++ rest) = scan 0 rest.
Proof. induction pre as [|c pre IH]; [by destruct rest|]. done. Qed.

Lemma is_word_plain c : is_word c = true → is_special c = false ∧ is_bracket c = false
                                            ∧ is_quote c = false ∧ Ascii.eqb c minus = false.
Proof.
  unfold is_word, is_letter, is_digit, is_special, is_bracket, is_quote,
    dot, lbracket, rbracket, dquote, squote, minus.
  intros Hw.
  assert (Hne : ∀ d, is_word d = false → Ascii.eqb c d = false).
  { intros d Hd. destruct (Ascii.eqb c d) eqn:E; [|done].
    apply Ascii.eqb_eq in E. subst d.
    unfold is_word, is_letter, is_digit in Hd. by rewrite Hw in Hd. }
  rewrite !Hne by done. done.
Qed.

Lemma forallb_word_plain ws :
  forallb is_word ws = true →
  forallb (λ x, negb (is_special x)) ws = true
  ∧ forallb (λ x, negb (is_bracket x)) ws = true.
Proof.
  induction ws as [|c ws IH]; [done|]. cbn [forallb]. intros Hw.
  apply andb_true_iff in Hw as [Hc Hw]. destruct (IH Hw) as [-> ->].
  destruct (is_word_plain c Hc) as (-> & -> & _). done.
Qed.

(** A run of word characters is found as one key. *)
Lemma scan_word ws rest :
  ws ≠ [] → forallb is_word ws = true →
  match rest with [] => True | c :: _ => is_special c = true end →
  scan 0 (ws ++ rest) = string_of_list_ascii ws :: scan 0 rest.
Proof.
  intros Hne Hw Hrest. destruct ws as [|c ws]; [done|].
  destruct (forallb_word_plain _ Hw) as [Hplain _].
  cbn [forallb] in Hw. apply andb_true_iff in Hw as [Hc Hw].
  destruct (is_word_plain c Hc) as (Hsp & _).
  cbn [app scan]. unfold match_here. rewrite Hsp. cbn [negb].
  change (c :: ws ++ rest) with ((c :: ws) ++ rest).
  rewrite (span_stop _ (c :: ws) rest Hplain).
  - cbn [fst length]. rewrite Nat.sub_succ, Nat.sub_0_r. by rewrite scan_skip.
  - destruct rest as [|d r]; [done|]. by rewrite Hrest.
Qed.

Lemma scan_dot ws rest :
  ws ≠ [] → forallb is_word ws = true →
  scan 0 (dot :: ws ++ rest) = scan 0 (ws ++ rest).
Proof.
  intros Hne Hw. destruct ws as [|c ws]; [done|].
  cbn [forallb] in Hw. apply andb_true_iff in Hw as [Hc Hw].
  destruct (is_word_plain c Hc) as (Hsp & Hbr & _).
  cbn [scan]. unfold match_here.
  replace (is_special dot) with true by done. cbn [negb].
  replace (Ascii.eqb dot lbracket) with false by done.
  unfold empty_key_here. cbn [separator app].
  replace (Ascii.eqb dot dot) with true by done. unfold separator.
  unfold is_special in Hsp. apply orb_false_iff in Hsp as [Hsp _].
  apply orb_false_iff in Hsp as [-> ->].
  by rewrite bool_decide_eq_false_2 by (by intros [? ?]).
Qed.

Lemma span_digits_word ws :
  forallb is_word ws = true →
  (forallb is_digit ws = true ∧ span is_digit (ws ++ [rbracket]) = (ws, [rbracket]))
  ∨ (∃ ds c r, forallb is_digit ws = false
               ∧ span is_digit (ws ++ [rbracket]) = (ds, c :: r)
               ∧ is_word c = true).
Proof.
  induction ws as [|c ws IH]; intros Hw; [by left|].
  cbn [forallb] in Hw. apply andb_true_iff in Hw as [Hc Hw].
  cbn [app span forallb]. destruct (is_digit c) eqn:Hd.
  - destruct (IH Hw) as [[Hall ->]|(ds & c' & r & Hall & -> & Hc')].
    + left. by rewrite Hall.
    + right. exists (c :: ds), c', r. by rewrite Hall.
  - right. by exists [], c, (ws ++ [rbracket]).
Qed.

Lemma number_key_word ws :
  ws ≠ [] → forallb is_word ws = true →
  number_key (ws ++ [rbracket])
  = if forallb is_digit ws then Some (ws, []) else None.
Proof.
  intros Hne Hw. unfold number_key.
  assert (Hsign : match ws ++ [rbracket] with
                  | c :: r => if Ascii.eqb c minus then ([c], r) else ([], ws ++ [rbracket])
                  | [] => ([], ws ++ [rbracket])
                  end = ([], ws ++ [rbracket])).
  { destruct ws as [|c ws]; [done|]. cbn [forallb] in Hw.
    apply andb_true_iff in Hw as [Hc _].
    destruct (is_word_plain c Hc) as (_ & _ & _ & Hm). cbn [app]. by rewrite Hm. }
  rewrite Hsign.
  destruct (span_digits_word ws Hw) as [[Hall ->]|(ds & c & r & Hall & -> & Hc)];
    rewrite Hall.
  - destruct ws as [|c ws]; [done|]. simpl. by rewrite app_nil_r.
  - destruct ds as [|d ds]; [done|].
    destruct (is_word_plain c Hc) as (Hsp & Hbr & _).
    unfold is_special in Hsp. apply orb_false_iff in Hsp as [Hsp Hr].
    apply orb_false_iff in Hsp as [Hdot _]. by rewrite Hdot, Hr.
Qed.

Lemma scan_bracket ws :
  ws ≠ [] → forallb is_word ws = true →
  scan 0 (lbracket :: ws ++ [rbracket]) = [string_of_list_ascii ws].
Proof.
  intros Hne Hw. cbn [scan]. unfold match_here.
  replace (is_special lbracket) with true by done. cbn [negb].
  replace (Ascii.eqb lbracket lbracket) with true by done.
  rewrite (number_key_word ws Hne Hw).
  destruct (forallb is_digit ws) eqn:Hall.
  - cbn [length]. rewrite Nat.sub_0_r, Nat.sub_succ, Nat.sub_0_r.
    rewrite <- (app_nil_r (ws ++ [rbracket])) at 2. by rewrite scan_skip.
  - assert (Hq : quoted_key (ws ++ [rbracket]) = None).
    { destruct ws as [|c ws]; [done|]. cbn [forallb] in Hw.
      apply andb_true_iff in Hw as [Hc _].
      destruct (is_word_plain c Hc) as (_ & _ & Hq & _). cbn [app quoted_key].
      by rewrite Hq. }
    rewrite Hq.
    assert (He : empty_key_here (lbracket :: ws ++ [rbracket]) = false).
    { destruct ws as [|c ws]; [done|]. cbn [forallb] in Hw.
      apply andb_true_iff in Hw as [Hc _].
      destruct (is_word_plain c Hc) as (Hsp & _).
      unfold is_special in Hsp. apply orb_false_iff in Hsp as [_ Hr].
      unfold empty_key_here, separator. cbn [app].
      replace (Ascii.eqb lbracket dot) with false by done.
      replace (Ascii.eqb lbracket lbracket) with true by done. by rewrite Hr. }
    rewrite He. rewrite (scan_word ws [rbracket] Hne Hw) by done. done.
Qed.

Lemma deep_anywhere_app pre cs :
  deep_here cs = true → deep_anywhere (pre ++ cs) = true.
Proof.
  intros Hd. induction pre as [|c pre IH].
  - destruct cs as [|c cs]; [done|]. cbn [app deep_anywhere]. by rewrite Hd.
  - cbn [app deep_anywhere]. rewrite IH. apply orb_true_r.
Qed.

Lemma word_inv k :
  word k = true → list_ascii_of_string k ≠ [] ∧ forallb is_word (list_ascii_of_string k) = true.
Proof.
  unfold word, reIsPlainProp. intros Hw. apply andb_true_iff in Hw as [Hne Hw].
  split; [|done]. destruct k; [done|]. done.
Qed.

Lemma forallb_app_false {A} (p : A → bool) xs c ys :
  p c = false → forallb p (xs ++ c :: ys) = false.
Proof. intros Hc. rewrite forallb_app. cbn [forallb]. rewrite Hc. apply andb_false_r. Qed.

(** Both spellings are read as the two keys. *)
Lemma two_keys k1 k2 :
  word k1 = true → word k2 = true →
  stringToPath (dotted k1 k2) = [k1; k2]
  ∧ stringToPath (bracketed k1 k2) = [k1; k2]
  ∧ reIsPlainProp (dotted k1 k2) = false ∧ reIsDeepProp (dotted k1 k2) = true
  ∧ reIsPlainProp (bracketed k1 k2) = false ∧ reIsDeepProp (bracketed k1 k2) = true.
Proof.
  intros Hw1 Hw2.
  destruct (word_inv k1 Hw1) as [Hne1 Hl1]. destruct (word_inv k2 Hw2) as [Hne2 Hl2].
  destruct (forallb_word_plain _ Hl2) as [_ Hnb2].
  assert (Hk1 : string_of_list_ascii (list_ascii_of_string k1) = k1)
    by apply string_of_list_ascii_of_string.
  assert (Hk2 : string_of_list_ascii (list_ascii_of_string k2) = k2)
    by apply string_of_list_ascii_of_string.
  set (l1 := list_ascii_of_string k1) in *. set (l2 := list_ascii_of_string k2) in *.
  assert (Hd : list_ascii_of_string (dotted k1 k2) = l1 ++ dot :: l2).
  { unfold dotted. by rewrite !list_ascii_of_string_app. }
  assert (Hb : list_ascii_of_string (bracketed k1 k2) = l1 ++ lbracket :: l2 ++ [rbracket]).
  { unfold bracketed. by rewrite !list_ascii_of_string_app. }
  assert (Hhead : ∀ rest, match l1 ++ rest with
                          | c :: _ => Ascii.eqb c dot = false
                          | [] => False
                          end).
  { intros rest. clearbody l1. destruct l1 as [|c l1']; [done|]. cbn [app].
    cbn [forallb] in Hl1. apply andb_true_iff in Hl1 as [Hc _].
    destruct (is_word_plain c Hc) as (Hsp & _). unfold is_special in Hsp.
    apply orb_false_iff in Hsp as [Hsp _]. by apply orb_false_iff in Hsp as [-> _]. }
  clearbody l1 l2.
  split; [|split; [|split; [|split; [|split]]]].
  - unfold stringToPath. rewrite Hd. specialize (Hhead (dot :: l2)).
    destruct (l1 ++ dot :: l2) as [|c r] eqn:E; [done|]. rewrite Hhead, <- E.
    rewrite (scan_word l1 (dot :: l2)) by done.
    rewrite <- (app_nil_r l2), (scan_dot l2 []) by done.
    rewrite (scan_word l2 []) by done. by rewrite Hk1, Hk2.
  - unfold stringToPath. rewrite Hb. specialize (Hhead (lbracket :: l2 ++ [rbracket])).
    destruct (l1 ++ lbracket :: l2 ++ [rbracket]) as [|c r] eqn:E; [done|].
    rewrite Hhead, <- E.
    rewrite (scan_word l1 (lbracket :: l2 ++ [rbracket])) by done.
    rewrite (scan_bracket l2) by done. by rewrite Hk1, Hk2.
  - unfold reIsPlainProp. rewrite Hd. by apply forallb_app_false.
  - unfold reIsDeepProp. rewrite Hd. by apply deep_anywhere_app.
  - unfold reIsPlainProp. rewrite Hb. by apply forallb_app_false.
  - unfold reIsDeepProp. rewrite Hb. apply deep_anywhere_app.
    unfold deep_here. replace (Ascii.eqb lbracket dot) with false by done.
    replace (Ascii.eqb lbracket lbracket) with true by done.
    rewrite (span_stop _ l2 [rbracket] Hnb2) by done. done.
Qed.

Lemma key_in_absent h x name :
  reIsPlainProp name = false → spread h x !! name = None → key_in h x name = false.
Proof.
  intros Hplain Hnone. unfold key_in. destruct x as [| | | | |l]; try done.
  unfold spread in Hnone. destruct (h !! l) as [o|]; [|done].
  unfold has_own. rewrite Hnone.
  rewrite bool_decide_eq_false_2 by (by intros [? ?]).
  destruct (okind o); [done|]. rewrite orb_false_r.
  destruct (String.eqb name "length") eqn:E; [|done].
  apply String.eqb_eq in E. subst name. by vm_compute in Hplain.
Qed.

Lemma castPath_two_keys h x k1 k2 :
  word k1 = true → word k2 = true →
  spread h x !! dotted k1 k2 = None → spread h x !! bracketed k1 k2 = None →
  castPath h (dotted k1 k2) x = [k1; k2] ∧ castPath h (bracketed k1 k2) x = [k1; k2].
Proof.
  intros Hw1 Hw2 Hd Hb.
  destruct (two_keys k1 k2 Hw1 Hw2) as (Hpd & Hpb & Hd1 & Hd2 & Hb1 & Hb2).
  unfold castPath, isKey. rewrite Hd1, Hd2, Hb1, Hb2. cbn [negb orb].
  rewrite !key_in_absent by done. by rewrite !andb_false_r.
Qed.

Lemma set_same_path h x n1 n2 v :
  castPath h n1 x = castPath h n2 x → set h x n1 v = set h x n2 v.
Proof. intros Hp. unfold set, baseSet. by rewrite Hp. Qed.

(** X13.  The dotted and the bracketed spelling of a nested name are the
    same name.  For keys [k1], [k2] made of letters, digits and
    underscores, and a [fieldsValues] that has no own property literally
    called [k1.k2] or [k1[k2]], both spellings are read as the path
    [k1, k2]: the accessors resolve the same value under both, the reducer
    returns the same result for a field update under either, and a form
    whose first entry is spelled one way is submitted as the form spelled
    the other way. *)
Theorem dot_and_bracket_names_agree h state k1 k2 v :
  word k1 = true → word k2 = true →
  spread h (get_prop h (or_initial state) "fieldsValues") !! dotted k1 k2 = None →
  spread h (get_prop h (or_initial state) "fieldsValues") !! bracketed k1 k2 = None →
  castPath h (dotted k1 k2) (get_prop h (or_initial state) "fieldsValues") = [k1; k2]
  ∧ castPath h (bracketed k1 k2) (get_prop h (or_initial state) "fieldsValues") = [k1; k2]
  ∧ get h (get_prop h (or_initial state) "fieldsValues") (dotted k1 k2)
    = get h (get_prop h (or_initial state) "fieldsValues") (bracketed k1 k2)
  ∧ reducer h state (field_change (dotted k1 k2) v)
    = reducer h state (field_change (bracketed k1 k2) v)
  ∧ ∀ h0 rest, onSubmit_handler h0 ((dotted k1 k2, v) :: rest)
               = onSubmit_handler h0 ((bracketed k1 k2, v) :: rest).
Proof.
  intros Hw1 Hw2 Hd Hb. set (fv := get_prop h (or_initial state) "fieldsValues") in *.
  destruct (castPath_two_keys h fv k1 k2 Hw1 Hw2 Hd Hb) as [Hpd Hpb].
  split; [done|]. split; [done|]. split; [|split].
  - unfold get, baseGet. by rewrite Hpd, Hpb.
  - rewrite !reducer_field_change_any.
    unfold on_field_value_change. rewrite !field_name_value. simpl String.eqb.
    destruct (member h (or_initial state) "fieldsValues") as [fv0|] eqn:Hm; [|done].
    cbn [mbind result_bind alloc to_property_key].
    assert (fv0 = fv) as ->.
    { unfold member in Hm. destruct (is_nullish (or_initial state)); [done|].
      by injection Hm as <-. }
    rewrite (set_same_path _ _ (dotted k1 k2) (bracketed k1 k2)); [done|].
    destruct (castPath_two_keys (h ++ [Obj KObject (spread h fv)]) (VRef (length h))
                k1 k2 Hw1 Hw2) as [-> ->]; by rewrite ?spread_new.
  - intros h0 rest. unfold onSubmit_handler. cbn [alloc set_entries].
    rewrite (set_same_path _ _ (dotted k1 k2) (bracketed k1 k2)); [done|].
    destruct (castPath_two_keys (h0 ++ [Obj KObject ∅]) (VRef (length h0))
                k1 k2 Hw1 Hw2) as [-> ->]; by rewrite ?spread_new.
Qed.

Lemma dot_and_bracket_names_agree_witness :
  reducer module_heap initialState (field_change "address.city" (VStr "Oslo"))
  = reducer module_heap initialState (field_change "address[city]" (VStr "Oslo")).
Proof.
  by destruct (dot_and_bracket_names_agree module_heap initialState "address" "city"
                 (VStr "Oslo")) as (_ & _ & _ & Hred & _); [by vm_compute..|].
Defined.

(** * What a nested name builds *)

Lemma chain_length path : ∀ base v, length (chain base path v) = length path.
Proof.
  induction path as [|key rest IH]; intros base v; [done|].
  cbn [chain]. destruct rest as [|next rest']; [done|].
  cbn [length]. by rewrite IH.
Qed.

Lemma insert_snoc (h : heap) o o' : <[length h := o']> (h ++ [o]) = h ++ [o'].
Proof.
  rewrite insert_app_r_alt by done. by rewrite Nat.sub_diag.
Qed.

(** A write into the new, empty object made for [key]. *)
Lemma assignValue_empty h key w tail :
  assignValue (h ++ empty_for key :: tail) (VRef (length h)) key w
  = Ok (h ++ fresh_object key w :: tail).
Proof.
  assert (Hl : (h ++ empty_for key :: tail) !! length h = Some (empty_for key))
    by by apply list_lookup_middle.
  unfold assignValue, own_in, key_in, get_prop. rewrite Hl.
  assert (Hown : has_own (empty_for key) key = false).
  { unfold has_own, empty_for. destruct (isIndex key) eqn:Hi; cbn [okind oprops].
    - rewrite (isIndex_not_length key Hi).
      by rewrite bool_decide_eq_false_2 by (by intros [? ?]).
    - by rewrite bool_decide_eq_false_2 by (by intros [? ?]). }
  rewrite Hown. cbn [andb negb orb].
  unfold baseAssignValue. rewrite Hl.
  assert (Hset : obj_set (empty_for key) key w = Ok (fresh_object key w)).
  { unfold obj_set, empty_for, fresh_object. destruct (isIndex key) eqn:Hi; cbn [okind oprops].
    - rewrite (isIndex_not_length key Hi). destruct (array_index key) as [i|]; [|done].
      by rewrite N.max_r by lia.
    - done. }
  rewrite Hset. cbn [mbind result_bind mret result_ret].
  rewrite insert_app_r_alt by done. by rewrite Nat.sub_diag.
Qed.

Lemma get_prop_fresh h key w :
  get_prop (h ++ [fresh_object key w]) (VRef (length h)) key = w.
Proof.
  unfold get_prop. rewrite lookup_alloc_new. unfold obj_get, fresh_object.
  destruct (isIndex key) eqn:Hi; cbn [okind oprops].
  - rewrite (isIndex_not_length key Hi). by rewrite lookup_insert_eq.
  - by rewrite lookup_insert_eq.
Qed.

Lemma get_prop_empty h key :
  get_prop (h ++ [empty_for key]) (VRef (length h)) key = VUndefined.
Proof.
  unfold get_prop. rewrite lookup_alloc_new. unfold obj_get, empty_for.
  destruct (isIndex key) eqn:Hi; cbn [okind oprops]; [|done].
  by rewrite (isIndex_not_length key Hi).
Qed.

Lemma baseSet_loop_cons h nested key rest v :
  baseSet_loop h nested (key :: rest) v
  = (if is_nullish nested then mret h
     else if unsafe_key key then mret h
     else
       '(h1, newValue) ←
         match rest with
         | [] => mret (h, v)
         | next :: _ =>
             let objValue := get_prop h nested key in
             if isObject objValue then mret (h, objValue)
             else
               let '(h1, l) :=
                 alloc h (Obj (if isIndex next then KArray 0 else KObject) ∅) in
               mret (h1, VRef l)
         end;
       h2 ← assignValue h1 nested key newValue;
       baseSet_loop h2 (get_prop h2 nested key) rest v).
Proof. done. Qed.

(** [baseSet] from a new, empty object: the chain. *)
Lemma baseSet_loop_fresh rest : ∀ h key v,
  safe_path (key :: rest) = true →
  baseSet_loop (h ++ [empty_for key]) (VRef (length h)) (key :: rest) v
  = Ok (h ++ chain (length h) (key :: rest) v).
Proof.
  induction rest as [|next rest IH]; intros h key v Hsafe;
    cbn [safe_path forallb] in Hsafe; apply andb_true_iff in Hsafe as [Hkey Hsafe];
    apply negb_true_iff in Hkey.
  - cbn [baseSet_loop is_nullish chain]. unfold toKey. rewrite Hkey.
    cbn [mbind result_bind mret result_ret]. rewrite assignValue_empty.
    by cbn [mbind result_bind mret result_ret baseSet_loop].
  - rewrite baseSet_loop_cons. cbn [is_nullish]. rewrite Hkey.
    rewrite get_prop_empty. cbn [isObject alloc mbind result_bind mret result_ret].
    fold (empty_for next).
    assert (Hassign : assignValue ((h ++ [empty_for key]) ++ [empty_for next])
                        (VRef (length h)) key (VRef (length (h ++ [empty_for key])))
                      = Ok ((h ++ [fresh_object key (VRef (S (length h)))])
                              ++ [empty_for next])).
    { rewrite <- !app_assoc. cbn [app]. rewrite assignValue_empty.
      rewrite length_app. cbn [length]. by rewrite Nat.add_1_r. }
    rewrite Hassign. cbn [mbind result_bind].
    assert (Hnext : get_prop ((h ++ [fresh_object key (VRef (S (length h)))]) ++ [empty_for next])
                      (VRef (length h)) key = VRef (S (length h))).
    { rewrite get_prop_alloc by (rewrite length_app; simpl; lia). apply get_prop_fresh. }
    rewrite Hnext.
    replace (S (length h)) with (length (h ++ [fresh_object key (VRef (S (length h)))])) at 2
      by (rewrite length_app; simpl; lia).
    rewrite IH by (cbn [safe_path forallb]; done).
    rewrite length_app. cbn [length]. rewrite Nat.add_1_r.
    cbn [chain]. by rewrite <- app_assoc.
Qed.

Lemma assignValue_plain_new h props key w tail :
  isObject (default VUndefined (props !! key)) = false → isObject w = true →
  assignValue (h ++ Obj KObject props :: tail) (VRef (length h)) key w
  = Ok (h ++ Obj KObject (<[key := w]> props) :: tail).
Proof.
  intros Hold Hw.
  assert (Hl : (h ++ Obj KObject props :: tail) !! length h = Some (Obj KObject props))
    by by apply list_lookup_middle.
  unfold assignValue, own_in, key_in, get_prop, lodash_eq. rewrite Hl.
  cbn [obj_get okind oprops].
  rewrite (bool_decide_eq_false_2 (default VUndefined (props !! key) = w))
    by (intros Heq; rewrite Heq, Hw in Hold; done).
  rewrite andb_false_r. cbn [negb orb].
  unfold baseAssignValue. rewrite Hl. cbn [obj_set okind oprops mbind result_bind mret result_ret].
  rewrite insert_app_r_alt by done. by rewrite Nat.sub_diag.
Qed.

(** [baseSet] on a plain object whose first key holds no object. *)
Lemma baseSet_loop_plain_fresh h props key rest v :
  rest ≠ [] → safe_path (key :: rest) = true →
  isObject (default VUndefined (props !! key)) = false →
  baseSet_loop (h ++ [Obj KObject props]) (VRef (length h)) (key :: rest) v
  = Ok ((h ++ [Obj KObject (<[key := VRef (S (length h))]> props)])
          ++ chain (S (length h)) rest v).
Proof.
  intros Hne Hsafe Hold. destruct rest as [|next rest]; [done|].
  cbn [safe_path forallb] in Hsafe. apply andb_true_iff in Hsafe as [Hkey Hsafe].
  apply negb_true_iff in Hkey.
  rewrite baseSet_loop_cons. cbn [is_nullish]. rewrite Hkey.
  assert (Hget : get_prop (h ++ [Obj KObject props]) (VRef (length h)) key
                 = default VUndefined (props !! key)).
  { apply get_prop_new, lookup_alloc_new. }
  rewrite Hget, Hold. cbn [alloc mbind result_bind mret result_ret].
  fold (empty_for next).
  replace (length (h ++ [Obj KObject props])) with (S (length h))
    by (rewrite length_app; simpl; lia).
  rewrite <- app_assoc. cbn [app].
  rewrite assignValue_plain_new by done. cbn [mbind result_bind].
  assert (Hnext : get_prop (h ++ [Obj KObject (<[key:=VRef (S (length h))]> props);
                                  empty_for next]) (VRef (length h)) key
                  = VRef (S (length h))).
  { rewrite (get_prop_new _ _ (<[key:=VRef (S (length h))]> props)).
    - by rewrite lookup_insert_eq.
    - by apply list_lookup_middle. }
  rewrite Hnext.
  change (h ++ [Obj KObject (<[key:=VRef (S (length h))]> props); empty_for next])
    with (h ++ [Obj KObject (<[key:=VRef (S (length h))]> props)] ++ [empty_for next]).
  rewrite app_assoc.
  pose proof (baseSet_loop_fresh rest
                (h ++ [Obj KObject (<[key:=VRef (S (length h))]> props)]) next v) as Hfresh.
  rewrite length_app in Hfresh. cbn [length] in Hfresh. rewrite Nat.add_1_r in Hfresh.
  apply Hfresh. cbn [safe_path forallb]. done.
Qed.

(** X14.  What a nested name builds where there was nothing.  When the
    first key of the name holds no object in [fieldsValues] (it is absent,
    or holds a primitive), no key is one lodash refuses, and no key before
    the last names a member of [Object.prototype], the reducer returns
    exactly this: the store as it was, followed by the copy of
    [fieldsValues] with the first key referring to a new object, by one
    new object for each further key, each holding that key alone and
    referring to the next (the last holds the value), an array when its
    key is an index and a plain object otherwise, and by the new
    [fieldsValues] and the new state.  Nothing is logged. *)
Theorem fresh_nested_field_change h state n v key rest :
  state ≠ VNull →
  castPath (with_copy h (get_prop h (or_initial state) "fieldsValues")) n (the_copy h)
  = key :: rest →
  rest ≠ [] → safe_path (key :: rest) = true →
  forallb own_key (removelast (key :: rest)) = true →
  isObject (default VUndefined
              (spread h (get_prop h (or_initial state) "fieldsValues") !! key)) = false →
  reducer h state (field_change n v)
  = Ok (h ++ [Obj KObject (<[key := VRef (S (length h))]>
                             (spread h (get_prop h (or_initial state) "fieldsValues")))]
          ++ chain (S (length h)) rest v
          ++ [Obj KObject (<[key := VRef (S (length h))]>
                             (spread h (get_prop h (or_initial state) "fieldsValues")));
              Obj KObject (<["fieldsValues" := VRef (S (length h) + length rest)%nat]>
                             (spread h (or_initial state)))],
        VRef (S (S (length h) + length rest)), []).
Proof.
  intros Hnull Hpath Hne Hsafe _ Hold. rewrite reducer_field_change_any.
  assert (Hs : is_nullish (or_initial state) = false) by by destruct state.
  rewrite on_field_value_change_eq by done.
  set (fv := get_prop h (or_initial state) "fieldsValues") in *.
  unfold set, baseSet, with_copy, the_copy in *. cbn [is_nullish isObject negb].
  rewrite Hpath, (baseSet_loop_plain_fresh h (spread h fv) key rest v) by done.
  cbn [mbind result_bind mret result_ret].
  set (props' := <[key:=VRef (S (length h))]> (spread h fv)).
  assert (Hcopy : ((h ++ [Obj KObject props']) ++ chain (S (length h)) rest v) !! length h
                  = Some (Obj KObject props')).
  { apply lookup_app_Some_l, lookup_alloc_new. }
  rewrite (spread_at _ _ _ Hcopy).
  replace (props' ∪ spread h fv) with props' by (symmetry; apply insert_union_absorb).
  rewrite !length_app, chain_length. cbn [length].
  rewrite Nat.add_1_r. rewrite <- !app_assoc. done.
Qed.

Lemma fresh_nested_field_change_witness :
  reducer module_heap initialState (field_change "items[0].name" (VStr "Ada"))
  = Ok (module_heap
          ++ [ Obj KObject (<["items" := VRef 7%nat]> ∅);
               Obj (KArray 1) (<["0" := VRef 8%nat]> ∅);
               Obj KObject (<["name" := VStr "Ada"]> ∅);
               Obj KObject (<["items" := VRef 7%nat]> ∅);
               state_object (VRef 9%nat) (VRef 1%nat) (VBool false) ],
        VRef 10%nat, []).
Proof.
  rewrite (fresh_nested_field_change module_heap initialState "items[0].name"
             (VStr "Ada") "items" ["0"; "name"]); [|by vm_compute..].
  by vm_compute.
Defined.

(** * A submitted name that starts with a refused key *)

(** X15.  An entry of the form whose name starts with a key lodash refuses
    ([__proto__], [constructor], [prototype]) is left out of the submitted
    values: the handler does with the form what it does with the form
    without that entry. *)
Theorem refused_entry_dropped h form n v key rest :
  castPath (h ++ [Obj KObject ∅]) n (VRef (length h)) = key :: rest →
  unsafe_key key = true →
  onSubmit_handler h ((n, v) :: form) = onSubmit_handler h form.
Proof.
  intros Hpath Hunsafe. unfold onSubmit_handler. cbn [alloc set_entries].
  unfold set, baseSet. cbn [is_nullish isObject negb]. rewrite Hpath.
  rewrite baseSet_loop_cons. cbn [is_nullish]. by rewrite Hunsafe.
Qed.

Lemma refused_entry_dropped_witness :
  onSubmit_handler module_heap [("__proto__.admin", VStr "yes"); ("name", VStr "Ada")]
  = onSubmit_handler module_heap [("name", VStr "Ada")].
Proof.
  by apply (refused_entry_dropped module_heap [("name", VStr "Ada")]
              "__proto__.admin" (VStr "yes") "__proto__" ["admin"]).
Defined.

(** * A nested update and the previous state *)

(** X16.  A nested update shows in the previous state.  On a form state,
    when the slot a field update changes lies in an object the store
    already held, other than the [fieldsValues] object itself (which is so
    when the first key of the name holds an object: the copy the reducer
    takes shares it), the [fieldsValues] of the state that was passed in
    resolves the name to the new value once the reducer has returned.
    (For a path in which no key before the last names a member of a
    built-in prototype.) *)
Theorem nested_field_change_shows_in_previous_state h s n v lc kc :
  wf_state h s = true → val_ok (length h) v = true →
  update_ok h (get_prop h s "fieldsValues") n = true →
  safe_path (castPath h n (get_prop h s "fieldsValues")) = true →
  ordinary_walk (castPath h n (get_prop h s "fieldsValues")) = true →
  update_slot h (get_prop h s "fieldsValues") n = Some (lc, kc) →
  (lc < length h)%nat → VRef lc ≠ get_prop h s "fieldsValues" →
  ∃ h' s',
    reducer h s (field_change n v) = Ok (h', s', [])
    ∧ get h' (get_prop h s "fieldsValues") n = v
    ∧ get h' (get_prop h' s' "fieldsValues") n = v.
Proof.
  intros Hwf Hv Hok Hsafe _ Hslot Hlc Hne.
  pose proof Hok as Hok'. apply update_ok_inv in Hok' as [Hnr Hw].
  destruct (field_update_shape h s n v Hwf Hv Hw)
    as (h2 & h' & s' & lf & merged & lfv & ofv & Hred & Hst & Hkinds & Hfv & Hofv & Hafv & Hfv'
        & Hlf & Hcopy' & Hc1 & Hc' & Hlen2 & Hext & Hframe & Hmerged & Hsettled).
  rewrite Hfv in *. rewrite Hslot in Hmerged.
  rewrite decide_False in Hmerged by lia. subst merged.
  specialize (Hsettled Hnr).
  assert (Hold : h' !! lfv = Some ofv).
  { apply Hext.
    assert (Hl1 : with_copy h (VRef lfv) !! lfv = Some ofv).
    { unfold with_copy. by apply lookup_app_Some_l. }
    specialize (Hframe lfv ofv Hl1). rewrite Hslot in Hframe.
    rewrite decide_False in Hframe; [done|]. intros ->. done. }
  assert (Hpath : castPath h n (VRef lfv) ≠ []).
  { intros Hnil. unfold update_slot in Hslot. by rewrite Hnil in Hslot. }
  exists h', s'. split; [done|].
  assert (Hget : ∀ root o, h' !! root = Some o → oprops o = oprops ofv → is_array o = false →
            get h' (VRef root) n = v).
  { intros root o Hroot Hprops Harr.
    assert (Hcast : castPath h' n (VRef root) = castPath h n (VRef lfv)).
    { eapply castPath_same; try done. by rewrite Hprops. }
    unfold get, baseGet. cbn [is_nullish]. rewrite Hcast. unfold baseGet_path.
    destruct (castPath h n (VRef lfv)) as [|key rest] eqn:Hp; [done|].
    rewrite (settled_get (key :: rest) h' (VRef root) v); try done.
    rewrite (settled_root rest h' (VRef root) (VRef lf) key v); try done.
    - rewrite (get_prop_plain h' root o) by done.
      rewrite (get_prop_new _ _ _ _ Hlf). by rewrite Hprops.
    - unfold own_in. rewrite (key_in_plain h' root o) by done.
      rewrite (key_in_plain h' lf (Obj KObject (oprops ofv))) by done.
      by rewrite Hprops. }
  split.
  - by apply (Hget lfv ofv).
  - rewrite Hfv'. by apply (Hget lf (Obj KObject (oprops ofv))).
Qed.

Lemma nested_field_change_shows_in_previous_state_witness :
  ∃ h' s',
    reducer Examples.store_ab Examples.state_ab (field_change "a.b" (VNum 2))
    = Ok (h', s', [])
    ∧ get Examples.store_ab (get_prop Examples.store_ab Examples.state_ab "fieldsValues") "a.b"
      = VNum 1
    ∧ get h' (get_prop Examples.store_ab Examples.state_ab "fieldsValues") "a.b" = VNum 2.
Proof.
  destruct (nested_field_change_shows_in_previous_state Examples.store_ab Examples.state_ab
              "a.b" (VNum 2) 6%nat "b")
    as (h' & s' & Hred & Hold & _); [by vm_compute..| |by vm_compute|].
  { vm_compute. lia. }
  exists h', s'. split; [done|]. split; [by vm_compute|done].
Defined.

(** * Validation follows the value *)

Lemma wf_state_anchored h s :
  wf_state h s = true →
  anchored h s ∧ is_plain h (get_prop h s "fieldsValues") = true
  ∧ is_plain h (get_prop h s "errors") = true.
Proof.
  unfold wf_state. rewrite !andb_true_iff. intros [[[[Hc Hs] Hobj] Hfv] Herr].
  split; [by apply closed_anchored|done].
Qed.

(** The hook accessor on a state whose [errors] is a plain object. *)
Lemma hook_returns h s n d validator :
  isObject s = true → is_plain h (get_prop h s "errors") = true →
  ∃ p, useFormBuilderField h (providerValue s) n d validator = Ok p
    ∧ fieldError p = get_prop h (get_prop h s "errors") n
    ∧ value p = (let resolved := get h (get_prop h s "fieldsValues") n in
                 if truthy resolved then resolved else d)
    ∧ (∀ validate, validator = Some validate →
         ∀ v, onChange p v = map edit_action [SetError n (verdict validate v); SetField n v]).
Proof.
  intros Hobj Herr. apply isObject_ref in Hobj as [ls ->].
  apply is_plain_inv in Herr as (le & oe & He & _).
  unfold useFormBuilderField, member. cbn [state providerValue is_nullish mbind result_bind].
  rewrite He. cbn [is_nullish mbind result_bind mret result_ret].
  eexists. split; [done|]. split; [done|]. split; [done|].
  intros validate -> v. cbn [onChange dispatch onFieldChange map edit_action].
  unfold verdict, errors_change, field_change. by destruct (truthy (validate v)).
Qed.

Lemma map_flat_map {A B C} (f : B → C) (g : A → list B) l :
  map f (flat_map g l) = flat_map (λ x, map f (g x)) l.
Proof. induction l as [|x l IH]; [done|]. cbn [flat_map]. by rewrite map_app, IH. Qed.

Lemma forallb_flat_map {A B} (p : B → bool) (g : A → list B) l :
  (∀ x, forallb p (g x) = true) → forallb p (flat_map g l) = true.
Proof.
  intros Hg. induction l as [|x l IH]; [done|]. cbn [flat_map].
  by rewrite forallb_app, Hg, IH.
Qed.

(** A plain object read under a name that is a single key. *)
Lemma get_flat h x n props :
  flat_name n = true → is_plain h x = true → spread h x = props →
  get h x n = default VUndefined (props !! n).
Proof.
  intros Hflat Hp <-. destruct (flat_name_isKey h n x Hflat) as [Hkey _].
  apply is_plain_inv in Hp as (l & o & -> & Ho & Ha).
  unfold get, baseGet, castPath. cbn [is_nullish]. rewrite Hkey.
  cbn [baseGet_path baseGet_loop is_nullish default]. unfold toKey.
  rewrite (get_prop_plain h l o) by done. unfold spread. by rewrite Ho.
Qed.

(** X17.  With a validator, the error of a field follows its value.  In a
    [FormBuilder], on a form state and for a field name that is a single
    key, after any sequence of calls of the hook accessor's [onChange] the
    state is reduced without an error or a diagnostic, and the hook
    accessor then gives as [fieldError] the validator's verdict on the
    last value (its result when truthy, [false] otherwise) and as [value]
    that last value (the default when it is falsy). *)
Theorem validation_tracks_value h s fieldName d validate vs last :
  wf_state h s = true → flat_name fieldName = true →
  ∃ p h' s' p',
    useFormBuilderField h (providerValue s) fieldName d (Some validate) = Ok p
    ∧ run h s (flat_map (onChange p) (vs ++ [last])) = Ok (h', s', [])
    ∧ useFormBuilderField h' (providerValue s') fieldName d (Some validate) = Ok p'
    ∧ fieldError p' = verdict validate last
    ∧ value p' = (if truthy last then last else d).
Proof.
  intros Hwf Hflat. destruct (wf_state_anchored h s Hwf) as (Hanch & Hpf & Hpe).
  assert (Hobj : isObject s = true) by (by destruct Hanch as (ls & -> & _)).
  destruct (hook_returns h s fieldName d (Some validate) Hobj Hpe)
    as (p & Hp & _ & _ & Hon).
  set (E := λ v, [SetError fieldName (verdict validate v); SetField fieldName v]).
  assert (Hacts : flat_map (onChange p) (vs ++ [last])
                  = map edit_action (flat_map E (vs ++ [last]))).
  { rewrite map_flat_map. clear -Hon. induction (vs ++ [last]) as [|v l IH]; [done|].
    cbn [flat_map]. by rewrite IH, (Hon validate eq_refl). }
  destruct (edits_run (flat_map E (vs ++ [last])) h s Hanch)
    as (h' & s' & Hrun & Hext & Hmaps & _ & Hanch' & Hpf' & Hpe').
  { apply forallb_flat_map. intros v. cbn [E forallb flat_edit]. by rewrite Hflat. }
  specialize (Hpf' Hpf). specialize (Hpe' Hpe).
  assert (Hobj' : isObject s' = true) by (by destruct Hanch' as (ls & -> & _)).
  destruct (hook_returns h' s' fieldName d (Some validate) Hobj' Hpe')
    as (p' & Hp' & Herr' & Hval' & _).
  exists p, h', s', p'. split; [done|]. split; [by rewrite Hacts|]. split; [done|].
  rewrite flat_map_app, foldl_app in Hmaps. cbn [flat_map E app foldl apply_edit] in Hmaps.
  injection Hmaps as Hfv Herrs. cbn [fst snd] in Hfv, Herrs.
  split.
  - rewrite Herr'. apply is_plain_inv in Hpe' as (le & oe & He & Hoe & Hae).
    rewrite He in *. rewrite (get_prop_plain h' le oe) by done.
    unfold spread in Herrs. rewrite Hoe in Herrs. by rewrite Herrs, lookup_insert_eq.
  - rewrite Hval'. cbn zeta. rewrite (get_flat h' _ fieldName _ Hflat Hpf' Hfv).
    by rewrite lookup_insert_eq.
Qed.

Lemma validation_tracks_value_witness :
  ∃ p h' s' p',
    useFormBuilderField module_heap (providerValue initialState) "age" (VNum 18)
                        (Some Examples.must_be_positive) = Ok p
    ∧ run module_heap initialState
          (flat_map (onChange p) ([VNum (-5); VNum 7; VNum (-1)] ++ [VNum 5]))
      = Ok (h', s', [])
    ∧ useFormBuilderField h' (providerValue s') "age" (VNum 18)
                          (Some Examples.must_be_positive) = Ok p'
    ∧ fieldError p' = VBool false ∧ value p' = VNum 5.
Proof.
  destruct (validation_tracks_value module_heap initialState "age" (VNum 18)
              Examples.must_be_positive [VNum (-5); VNum 7; VNum (-1)] (VNum 5))
    as (p & h' & s' & p' & Hp & Hrun & Hp' & Herr & Hval); [by vm_compute..|].
  by exists p, h', s', p'.
Defined.

(** * Typing a flat form and submitting it *)

Lemma foldl_fields (form : list (string * val)) : ∀ m : gmap string val * gmap string val,
  foldl apply_edit m (map (λ e, SetField e.1 e.2) form)
  = (foldl write_entry m.1 form, m.2).
Proof.
  induction form as [|e form IH]; intros m; [by destruct m|].
  cbn [map foldl]. rewrite IH. by destruct m.
Qed.

(** X18.  A flat form gives the same mapping typed and submitted.  For
    entries whose names are single keys: dispatching them one by one as
    field updates, from a state object whose [fieldsValues] is empty,
    leaves a [fieldsValues] with exactly the own properties of the
    [values] object the submit handler builds from the same entries. *)
Theorem submit_agrees_with_reducer_on_flat_forms h s h0 form :
  closed h = true → val_ok (length h) s = true → isObject s = true →
  spread h (get_prop h s "fieldsValues") = ∅ →
  forallb (λ e, flat_name e.1) form = true →
  ∃ h' s' hs,
    run h s (map (λ e, field_change e.1 e.2) form) = Ok (h', s', [])
    ∧ onSubmit_handler h0 form
      = Ok (hs, [Persist; PreventDefault; OnSubmit (VRef (length h0))])
    ∧ spread h' (get_prop h' s' "fieldsValues") = spread hs (VRef (length h0)).
Proof.
  intros Hc Hs Hobj Hempty Hflat.
  destruct (edits_run (map (λ e, SetField e.1 e.2) form) h s (closed_anchored h s Hc Hs Hobj))
    as (h' & s' & Hrun & _ & Hmaps & _).
  { clear -Hflat. induction form as [|e form IH]; [done|]. cbn [map forallb flat_edit] in *.
    apply andb_true_iff in Hflat as [-> Hflat]. by rewrite IH. }
  rewrite map_map in Hrun. cbn [edit_action] in Hrun.
  rewrite foldl_fields in Hmaps. cbn [fst snd] in Hmaps. injection Hmaps as Hfv _.
  exists h', s', (h0 ++ [Obj KObject (foldl write_entry ∅ form)]).
  split; [done|]. split.
  - unfold onSubmit_handler. cbn [alloc]. by rewrite (set_entries_flat form h0 ∅ Hflat).
  - by rewrite Hfv, Hempty, spread_new.
Qed.

Lemma submit_agrees_with_reducer_on_flat_forms_witness :
  ∃ h' s' hs,
    run module_heap initialState
        (map (λ e, field_change e.1 e.2) [("name", VStr "Ada"); ("city", VStr "Oslo")])
    = Ok (h', s', [])
    ∧ onSubmit_handler module_heap [("name", VStr "Ada"); ("city", VStr "Oslo")]
      = Ok (hs, [Persist; PreventDefault; OnSubmit (VRef 6%nat)])
    ∧ spread h' (get_prop h' s' "fieldsValues") = spread hs (VRef 6%nat).
Proof.
  by apply (submit_agrees_with_reducer_on_flat_forms module_heap initialState module_heap
              [("name", VStr "Ada"); ("city", VStr "Oslo")]); vm_compute.
Defined.

(** * A patch that takes [errors] away *)

(** X19.  [ON_STATE_CHANGE] replaces what its payload names without
    looking at it: a payload whose [errors] is [null] or [undefined] is
    reduced without an error, and in the resulting state both accessors
    throw a [TypeError] for every field. *)
Theorem state_change_can_remove_errors h s patch fieldName d validator :
  patch !! "errors" = Some VNull ∨ patch !! "errors" = Some VUndefined →
  ∃ h' s',
    reducer h s (Action ON_STATE_CHANGE patch) = Ok (h', s', [])
    ∧ FormBuilderField h' (providerValue s') fieldName = Throw TypeError
    ∧ useFormBuilderField h' (providerValue s') fieldName d validator = Throw TypeError.
Proof.
  intros Hpatch. rewrite reducer_state_change_any. eexists _, _. split; [done|].
  apply accessors_throw_without_errors. right. cbn [state providerValue].
  rewrite (get_prop_new _ (length h) _ _ (lookup_alloc_new _ _)).
  destruct Hpatch as [Hp|Hp]; by rewrite (lookup_union_Some_l _ _ _ _ Hp).
Qed.

Lemma state_change_can_remove_errors_witness :
  ∃ h' s',
    reducer module_heap initialState
            (Action ON_STATE_CHANGE (<["errors" := VNull]> ∅)) = Ok (h', s', [])
    ∧ useFormBuilderField h' (providerValue s') "age" (VNum 18) None = Throw TypeError.
Proof.
  destruct (state_change_can_remove_errors module_heap initialState
              (<["errors" := VNull]> ∅) "age" (VNum 18) None)
    as (h' & s' & Hred & _ & Hthrow); [by left|].
  by exists h', s'.
Defined.

(** * The field update on any state, the accessors and the submit handler *)

Import Writes Examples2 Examples3.

(** * Assignments, with the [length] of arrays *)





Lemma hits_slot o kc v : hits o kc v kc = true.
Proof. unfold hits. by rewrite String.eqb_refl. Qed.

(** Away from the [length] of an array, what an assignment changes does
    not depend on the value. *)
Lemma hits_value o kc v w k :
  is_array o && String.eqb kc "length" = false → hits o kc v k = hits o kc w k.
Proof.
  intros Hw. unfold hits. destruct (is_array o); [|done].
  simpl in Hw. by rewrite Hw.
Qed.






(** * [baseSet], with the [length] of arrays *)






(** * Stable paths *)





(** * What a path grew *)



(** * The field update on any state *)
















(** * What the hook accessor reads *)







(** * Validation in the hook accessor *)




(** * The submit handler *)





(** * What the handler builds is a tree *)







(** * The amended claims at concrete inputs *)













